(** * Nearest-subspace classifiers in RCDT / RSCDT space

    A shallow embedding of [my_classification/rcdt_ns.py] (class
    [MY_RDCT_NS], the unsigned variant) and [my_classification/RSCDT_NS.py]
    (class [RSCDT_NS], the signed variant).

    Modelling conventions.
    - A numpy array is a shape together with its elements in row-major
      order ([ndarray]); a one-dimensional array of numbers that is only
      traversed (singular values, angles, labels) is a list.
    - Array elements are rationals: every finite float64 is one, and the
      arithmetic is exact; rounding, infinities and NaN are not modelled.
    - A Python exception is a value of [exn]; a call that may raise returns
      a [result].  The methods that mutate [self] are state transformers
      that return the instance as it is left, also when they raise.
    - The numerical routines the two classes import ([LA.svd], [LA.norm],
      [np.cos], [np.sin], [np.pi], the forward transforms of pytranskit and
      [mp.cpu_count]) are parameters of the development.
    - [print] calls have no counterpart; [predict] is modelled on its
      reference path ([use_gpu=False]). *)

From Stdlib Require Import List Arith ZArith QArith Lia Lqa Bool.
Import ListNotations.

Set Implicit Arguments.
Local Close Scope Q_scope.
Local Open Scope nat_scope.

(** ** Exceptions *)

Inductive exn : Type :=
| ValueError
| IndexError
| LinAlgError.

Inductive result (A : Type) : Type :=
| Ok (a : A)
| Raise (e : exn).

Arguments Ok {A} a.
Arguments Raise {A} e.

Definition rbind {A B : Type} (r : result A) (k : A -> result B) : result B :=
  match r with
  | Ok a => k a
  | Raise e => Raise e
  end.

Declare Scope result_scope.
Delimit Scope result_scope with result.
Notation "x <- r ;; k" := (rbind r (fun x => k))
  (at level 61, r at next level, right associativity) : result_scope.
Notation "' p <- r ;; k" := (rbind r (fun x => let 'p := x in k))
  (at level 61, p pattern, r at next level, right associativity) : result_scope.
Local Open Scope result_scope.

(** [l] evaluated left to right; the first exception wins. *)
Fixpoint sequence {A : Type} (l : list (result A)) : result (list A) :=
  match l with
  | [] => Ok []
  | r :: rs => x <- r ;; xs <- sequence rs ;; Ok (x :: xs)
  end.

Definition is_ok {A : Type} (r : result A) : bool :=
  match r with Ok _ => true | Raise _ => false end.

(** ** The numpy fragment used by the classifiers *)

Module Np.

Record ndarray : Type := mk_ndarray { shape : list nat; data : list Q }.

Definition prod_shape (sh : list nat) : nat := fold_right Nat.mul 1 sh.

(** Number of elements under one index of axis 0. *)
Definition item_size (sh : list nat) : nat := prod_shape (tl sh).

Definition well_formed (a : ndarray) : Prop :=
  length (data a) = prod_shape (shape a).

Fixpoint shape_eqb (s t : list nat) : bool :=
  match s, t with
  | [], [] => true
  | x :: s', y :: t' => Nat.eqb x y && shape_eqb s' t'
  | _, _ => false
  end.

(** [n] consecutive blocks of [w] elements. *)
Fixpoint chunks (w n : nat) (d : list Q) : list (list Q) :=
  match n with
  | O => []
  | S n' => firstn w d :: chunks w n' (skipn w d)
  end.

(** The rows of a two-dimensional array. *)
Definition rows (a : ndarray) : list (list Q) :=
  match shape a with
  | [n; f] => chunks f n (data a)
  | _ => []
  end.

(** [a.shape[0]] *)
Definition shape0 (a : ndarray) : result nat :=
  match shape a with
  | [] => Raise IndexError
  | n :: _ => Ok n
  end.

(** [a.shape[1]] *)
Definition shape1 (a : ndarray) : result nat :=
  match shape a with
  | _ :: p :: _ => Ok p
  | _ => Raise IndexError
  end.

(** [a[st:en]], a slice of axis 0 with non-negative bounds. *)
Definition slice0 (st en : nat) (a : ndarray) : result ndarray :=
  match shape a with
  | [] => Raise IndexError
  | n :: rest =>
      let en' := Nat.min en n in
      let st' := Nat.min st en' in
      Ok (mk_ndarray ((en' - st') :: rest)
            (firstn ((en' - st') * prod_shape rest)
               (skipn (st' * prod_shape rest) (data a))))
  end.

(** [a[j, :, :]] *)
Definition index3 (a : ndarray) (j : nat) : result ndarray :=
  match shape a with
  | n :: r :: c :: rest =>
      let sz := prod_shape (r :: c :: rest) in
      if Nat.ltb j n
      then Ok (mk_ndarray (r :: c :: rest) (firstn sz (skipn (j * sz) (data a))))
      else Raise IndexError
  | _ => Raise IndexError
  end.

(** [a + x] and [a / x] for a scalar [x]. *)
Definition add_scalar (a : ndarray) (x : Q) : ndarray :=
  mk_ndarray (shape a) (map (fun v => (v + x)%Q) (data a)).

Definition div_scalar (a : ndarray) (x : Q) : ndarray :=
  mk_ndarray (shape a) (map (fun v => (v / x)%Q) (data a)).

(** [np.sum] of all the elements, accumulated from the first one on. *)
Definition np_sum (d : list Q) : Q := fold_left Qplus d 0%Q.

(** [np.ones(sh)] and [np.ones_like(a)] *)
Definition np_ones (sh : list nat) : ndarray :=
  mk_ndarray sh (repeat 1%Q (prod_shape sh)).

(** [np.array(l)] for a list of arrays: a new leading axis; arrays of
    different shapes are refused. *)
Definition np_array (l : list ndarray) : result ndarray :=
  match l with
  | [] => Ok (mk_ndarray [0] [])
  | a :: _ =>
      if forallb (fun b => shape_eqb (shape b) (shape a)) l
      then Ok (mk_ndarray (length l :: shape a) (concat (map data l)))
      else Raise ValueError
  end.

(** [np.concatenate(l)] along axis 0. *)
Definition np_concatenate (l : list ndarray) : result ndarray :=
  match l with
  | [] => Raise ValueError
  | a :: _ =>
      match shape a with
      | [] => Raise ValueError
      | _ :: rest =>
          if forallb (fun b => match shape b with
                               | [] => false
                               | _ :: r => shape_eqb r rest
                               end) l
          then Ok (mk_ndarray
                     (fold_right Nat.add 0 (map (fun b => hd 0 (shape b)) l) :: rest)
                     (concat (map data l)))
          else Raise ValueError
      end
  end.

Definition atleast_2d (a : ndarray) : ndarray :=
  match shape a with
  | [] => mk_ndarray [1; 1] (data a)
  | [n] => mk_ndarray [1; n] (data a)
  | _ => a
  end.

(** [np.vstack(l)] *)
Definition np_vstack (l : list ndarray) : result ndarray :=
  np_concatenate (map atleast_2d l).

(** The division points of [np.array_split]: [extras] sections of
    [each + 1] items, then sections of [each] items. *)
Fixpoint split_from (a : ndarray) (st : nat) (sizes : list nat) : result (list ndarray) :=
  match sizes with
  | [] => Ok []
  | sz :: sizes' =>
      x <- slice0 st (st + sz) a ;;
      xs <- split_from a (st + sz) sizes' ;;
      Ok (x :: xs)
  end.

(** [np.array_split(a, sections, axis=0)] *)
Definition np_array_split (a : ndarray) (sections : nat) : result (list ndarray) :=
  ntotal <- shape0 a ;;
  if Nat.eqb sections 0 then Raise ValueError
  else
    let each := Nat.div ntotal sections in
    let extras := Nat.modulo ntotal sections in
    split_from a 0 (repeat (S each) extras ++ repeat each (sections - extras)).

(** [a[mask]] for a one-dimensional boolean mask over axis 0. *)
Fixpoint select_blocks (mask : list bool) (blocks : list (list Q)) : list (list Q) :=
  match mask, blocks with
  | b :: mask', x :: blocks' =>
      if b then x :: select_blocks mask' blocks' else select_blocks mask' blocks'
  | _, _ => []
  end.

Definition mask_index (a : ndarray) (mask : list bool) : result ndarray :=
  match shape a with
  | [] => Raise IndexError
  | n :: rest =>
      if Nat.eqb (length mask) n
      then Ok (mk_ndarray (count_occ bool_dec mask true :: rest)
                 (concat (select_blocks mask (chunks (prod_shape rest) n (data a)))))
      else Raise IndexError
  end.

(** [a.reshape(a.shape[0], -1)]: the unknown dimension cannot be inferred
    when the known one is 0. *)
Definition reshape_rows (a : ndarray) : result ndarray :=
  n <- shape0 a ;;
  if Nat.eqb n 0 then Raise ValueError
  else Ok (mk_ndarray [n; Nat.div (prod_shape (shape a)) n] (data a)).

(** [l[i]] on a Python list. *)
Definition getitem {A : Type} (l : list A) (i : nat) : result A :=
  match nth_error l i with
  | Some x => Ok x
  | None => Raise IndexError
  end.

(** [a[np.newaxis]] *)
Definition newaxis (a : ndarray) : ndarray :=
  mk_ndarray (1 :: shape a) (data a).

(** [np.repeat(a, k, axis=0)]: every item of axis 0, [k] times in a row. *)
Definition np_repeat0 (a : ndarray) (k : nat) : result ndarray :=
  match shape a with
  | [] => Raise ValueError
  | n :: rest =>
      Ok (mk_ndarray ((n * k) :: rest)
            (concat (flat_map (fun blk => repeat blk k)
                       (chunks (prod_shape rest) n (data a)))))
  end.

(** [np.cumsum(s)] *)
Fixpoint cumsum_from (acc : Q) (s : list Q) : list Q :=
  match s with
  | [] => []
  | x :: s' => (acc + x)%Q :: cumsum_from (acc + x)%Q s'
  end.

Definition np_cumsum (s : list Q) : list Q :=
  match s with
  | [] => []
  | x :: s' => x :: cumsum_from x s'
  end.

(** [np.max(s)]; an empty array has no maximum. *)
Definition qmax (m y : Q) : Q := if Qle_bool m y then y else m.

Definition np_max (s : list Q) : result Q :=
  match s with
  | [] => Raise ValueError
  | x :: s' => Ok (fold_left qmax s' x)
  end.

(** [np.where(s >= c)[0]]: the indices, in increasing order. *)
Fixpoint where_ge_from (i : nat) (s : list Q) (c : Q) : list nat :=
  match s with
  | [] => []
  | x :: s' =>
      if Qle_bool c x then i :: where_ge_from (S i) s' c
      else where_ge_from (S i) s' c
  end.

Definition np_where_ge (s : list Q) (c : Q) : list nat := where_ge_from 0 s c.

(** The columns of a two-dimensional array. *)
Definition columns (a : ndarray) : list (list Q) :=
  match shape a with
  | [_; f] => map (fun j => map (fun r => nth j r 0%Q) (rows a)) (seq 0 f)
  | _ => []
  end.

(** [a.T] of a two-dimensional array (the bases kept by [fit] are
    two-dimensional; other ranks are left as they are). *)
Definition transpose (a : ndarray) : ndarray :=
  match shape a with
  | [n; f] => mk_ndarray [f; n] (concat (columns a))
  | _ => a
  end.

Definition dot (x y : list Q) : Q :=
  np_sum (map (fun p => (fst p * snd p)%Q) (combine x y)).

(** [a @ b] for two-dimensional operands; products of other ranks do
    not occur on the bases that [fit] stores and are not modelled. *)
Definition matmul (a b : ndarray) : result ndarray :=
  match shape a, shape b with
  | [m; k], [k'; n] =>
      if Nat.eqb k k'
      then Ok (mk_ndarray [m; n]
                 (concat (map (fun r => map (fun c => dot r c) (columns b)) (rows a))))
      else Raise ValueError
  | _, _ => Raise ValueError
  end.

(** [a - b] for operands of one shape, as they are in [predict] once
    both products went through. *)
Definition np_sub (a b : ndarray) : result ndarray :=
  if shape_eqb (shape a) (shape b)
  then Ok (mk_ndarray (shape a)
             (map (fun p => (fst p - snd p)%Q) (combine (data a) (data b))))
  else Raise ValueError.

(** [np.stack(l, axis=0)] *)
Definition np_stack (l : list ndarray) : result ndarray :=
  match l with
  | [] => Raise ValueError
  | _ => np_array l
  end.

(** [np.argmin] of a non-empty vector: the first index of a least element. *)
Fixpoint argmin_from (best_i : nat) (best : Q) (i : nat) (l : list Q) : nat :=
  match l with
  | [] => best_i
  | x :: l' =>
      if Qle_bool best x then argmin_from best_i best (S i) l'
      else argmin_from i x (S i) l'
  end.

Definition argmin (l : list Q) : nat :=
  match l with
  | [] => 0
  | x :: l' => argmin_from 0 x 1 l'
  end.

(** [np.argmin(a, axis=0)] of a two-dimensional array with at least one
    row: one index per column. *)
Definition np_argmin0 (a : ndarray) : list nat :=
  map argmin (columns a).

End Np.

Import Np.

(** ** The routines the classifiers import *)

(** The arguments of one call of a forward transform of pytranskit:
    the angles given to the constructor of the transform object ([None]
    when it is built without any, as in [RadonSCDT()]), and the arguments
    of [forward]. *)
Record forward_call : Type := mk_forward_call {
  fc_thetas : option (list Q);
  fc_x0_range : Q * Q;
  fc_template : ndarray;
  fc_x_range : Q * Q;
  fc_image : ndarray;
  fc_rm_edge : bool
}.

Class Externals : Type := {
  (** [np.pi], [np.cos], [np.sin] on one element *)
  np_pi : Q;
  np_cos : Q -> Q;
  np_sin : Q -> Q;
  (** [LA.svd(a, full_matrices=False)]: [u], [s], [vh] *)
  LA_svd : ndarray -> result (ndarray * list Q * ndarray);
  (** [LA.norm] of one row *)
  LA_norm : list Q -> Q;
  (** [mp.cpu_count()] *)
  cpu_count : nat;
  (** [RadonCDT(thetas).forward(...)] *)
  RadonCDT_forward : forward_call -> ndarray;
  (** [RadonSCDT().forward(...)[0]], the coefficient array [Ihat] *)
  RadonSCDT_forward : forward_call -> ndarray
}.

(** Module-level constants of both files. *)
Definition eps : Q := 1 # 1000000.
Definition x0_range : Q * Q := (0%Q, 1%Q).
Definition x_range : Q * Q := (0%Q, 1%Q).

(** ** What the two classes share verbatim

    [__init__], [add_trans_samples] and [predict] are the same text in
    both files, up to the name of the batch transform that [predict]
    calls. *)

Module NS.

Record classifier : Type := mk_classifier {
  num_classes : nat;
  thetas : list Q;
  rm_edge : bool;
  subspaces : list ndarray;
  len_subspace : nat
}.

(** [__init__] *)
Definition init (num_classes : nat) (thetas : list Q) (rm_edge : bool) : classifier :=
  mk_classifier num_classes thetas rm_edge [] 0.

(** A method that may mutate [self] and may raise. *)
Definition method (A : Type) : Type := classifier -> result A * classifier.

Definition mret {A : Type} (a : A) : method A := fun self => (Ok a, self).

Definition mbind {A B : Type} (m : method A) (k : A -> method B) : method B :=
  fun self =>
    match m self with
    | (Ok a, self') => k a self'
    | (Raise e, self') => (Raise e, self')
    end.

Declare Scope method_scope.
Delimit Scope method_scope with method.
Notation "x <~ m ;; k" := (mbind m (fun x => k))
  (at level 61, m at next level, right associativity) : method_scope.

(** A computation that only reads [self]. *)
Definition lift {A : Type} (f : classifier -> result A) : method A :=
  fun self => (f self, self).

Definition set_len_subspace (n : nat) : method unit :=
  fun self =>
    (Ok tt, mk_classifier (num_classes self) (thetas self) (rm_edge self)
              (subspaces self) n).

(** [self.subspaces.append(basis)] *)
Definition append_subspace (basis : ndarray) : method unit :=
  fun self =>
    (Ok tt, mk_classifier (num_classes self) (thetas self) (rm_edge self)
              (subspaces self ++ [basis]) (len_subspace self)).

(** [for x in l: body(x)] *)
Fixpoint for_each {A : Type} (l : list A) (body : A -> method unit) : method unit :=
  match l with
  | [] => mret tt
  | x :: l' => mbind (body x) (fun _ => for_each l' body)
  end.

Section Shared.

Context {E : Externals}.

(** [add_trans_samples] *)
Definition add_trans_samples (self : classifier) (features : ndarray) : result ndarray :=
  let angles := map (fun t => (t * np_pi / 180)%Q) (thetas self) in
  let v1 := mk_ndarray [length angles] (map np_cos angles) in
  let v2 := mk_ndarray [length angles] (map np_sin angles) in
  p <- shape1 features ;;
  v1 <- np_repeat0 (newaxis v1) p ;;
  p <- shape1 features ;;
  v2 <- np_repeat0 (newaxis v2) p ;;
  np_concatenate [features; newaxis v1; newaxis v2].

(** [LA.norm(a, axis=1)] *)
Definition norm_axis1 (a : ndarray) : ndarray :=
  mk_ndarray [length (rows a)] (map LA_norm (rows a)).

(** [basis[:k, :]] *)
Definition slice_rows (k : nat) (basis : ndarray) : result ndarray :=
  match shape basis with
  | _ :: _ :: _ => slice0 0 k basis
  | _ => Raise IndexError
  end.

(** The body of the loop of [predict]: the entry appended to [D]. *)
Definition class_distance (self : classifier) (X : ndarray) (class_idx : nat)
  : result ndarray :=
  basis <- getitem (subspaces self) class_idx ;;
  basis <- slice_rows (len_subspace self) basis ;;
  proj <- matmul X (transpose basis) ;;
  projR <- matmul proj basis ;;
  diff <- np_sub projR X ;;
  Ok (norm_axis1 diff).

(** [predict], given the batch transform of the class. *)
Definition predict (transform_parallel : classifier -> ndarray -> result ndarray)
  (self : classifier) (Xtest : ndarray) : result (list nat) :=
  Xt <- transform_parallel self Xtest ;;
  X <- reshape_rows Xt ;;
  D <- sequence (map (class_distance self X) (seq 0 (num_classes self))) ;;
  D <- np_stack D ;;
  Ok (np_argmin0 D).

(** [class_data] and [flat] of one turn of the loop of [fit]. *)
Definition class_flat (self : classifier) (Xt : ndarray) (Ytrain : list Z)
  (no_deform_model : bool) (class_idx : nat) : result ndarray :=
  class_data <- mask_index Xt (map (fun y => Z.eqb y (Z.of_nat class_idx)) Ytrain) ;;
  if no_deform_model
  then reshape_rows class_data
  else class_data_trans <- add_trans_samples self class_data ;;
       reshape_rows class_data_trans.

End Shared.

End NS.

(** ** The unsigned variant, [rcdt_ns.py] *)

Module MY_RDCT_NS.

Import NS.

Section Methods.

Context {E : Externals}.

(** The call that [fun_rcdt_single] makes. *)
Definition fun_rcdt_single_call (self : classifier) (I : ndarray) : forward_call :=
  let template := np_ones (shape I) in
  mk_forward_call (Some (thetas self))
    x0_range (div_scalar template (np_sum (data template)))
    x_range (div_scalar I (np_sum (data I)))
    (rm_edge self).

Definition fun_rcdt_single (self : classifier) (I : ndarray) : ndarray :=
  RadonCDT_forward (fun_rcdt_single_call self I).

Definition fun_rcdt_batch (self : classifier) (data : ndarray) : result ndarray :=
  n <- shape0 data ;;
  dataRCDT <- sequence
    (map (fun j => I <- index3 data j ;; Ok (fun_rcdt_single self (add_scalar I eps)))
       (seq 0 n)) ;;
  np_array dataRCDT.

(** [mp.Pool(n)] refuses to start with no process. *)
Definition mp_Pool (n : nat) : result unit :=
  if Nat.ltb n 1 then Raise ValueError else Ok tt.

(** [pl.map(f, l)]: the results in the order of [l]. *)
Definition pool_map {A B : Type} (f : A -> result B) (l : list A) : result (list B) :=
  sequence (map f l).

Definition rcdt_parallel (self : classifier) (X : ndarray) : result ndarray :=
  n <- shape0 X ;;
  let n_cpu := Nat.min cpu_count n in
  splits <- np_array_split X n_cpu ;;
  _ <- mp_Pool n_cpu ;;
  dataRCDT <- pool_map (fun_rcdt_batch self) splits ;;
  np_vstack dataRCDT.

(** [fit]: the decomposition and both updates of [self] are commented
    out in this file; what is left of the loop body computes [flat]. *)
Definition fit (Xtrain : ndarray) (Ytrain : list Z) (no_deform_model : bool)
  : method unit :=
  fun self =>
    (Xrcdt <~ lift (fun self => rcdt_parallel self Xtrain) ;;
     for_each (seq 0 (num_classes self)) (fun class_idx =>
       flat <~ lift (fun self =>
                       class_flat self Xrcdt Ytrain no_deform_model class_idx) ;;
       mret tt))%method self.

Definition predict (self : classifier) (Xtest : ndarray) : result (list nat) :=
  NS.predict rcdt_parallel self Xtest.

End Methods.

End MY_RDCT_NS.

(** ** The signed variant, [RSCDT_NS.py] *)

Module RSCDT_NS.

Import NS.

Section Methods.

Context {E : Externals}.

(** The call that [fun_rscdt_single] makes. *)
Definition fun_rscdt_single_call (self : classifier) (I0 : ndarray) : forward_call :=
  let x0_range := (0%Q, 1%Q) in
  let x_range := (0%Q, 1%Q) in
  let template := np_ones (shape I0) in
  mk_forward_call None x0_range template x_range I0 false.

Definition fun_rscdt_single (self : classifier) (I0 : ndarray) : ndarray :=
  RadonSCDT_forward (fun_rscdt_single_call self I0).

Definition fun_rscdt_batch (self : classifier) (data : ndarray) : result ndarray :=
  n <- shape0 data ;;
  dataRSCDT <- sequence
    (map (fun j => I <- index3 data j ;; Ok (fun_rscdt_single self (add_scalar I eps)))
       (seq 0 n)) ;;
  np_array dataRSCDT.

Definition rscdt_parallel (self : classifier) (X : ndarray) : result ndarray :=
  fun_rscdt_batch self X.

(** Lines 70 to 73, in [fit]:
    the number of leading singular values that reach 99% of the total. *)
Definition max_basis (s : list Q) : result nat :=
  let cum_s := np_cumsum s in
  m <- np_max cum_s ;;
  let cum_s := map (fun c => (c / m)%Q) cum_s in
  i <- getitem (np_where_ge cum_s (99 # 100)) 0 ;;
  Ok (i + 1).

(** One turn of the loop of [fit]. *)
Definition fit_class (Xrscdt : ndarray) (Ytrain : list Z) (no_deform_model : bool)
  (class_idx : nat) : method unit :=
  (flat <~ lift (fun self =>
                   class_flat self Xrscdt Ytrain no_deform_model class_idx) ;;
   usvh <~ lift (fun _ => LA_svd flat) ;;
   let '(u, s, vh) := usvh in
   max_basis <~ lift (fun _ => max_basis s) ;;
   _ <~ (fun self =>
           if Nat.ltb (len_subspace self) max_basis
           then set_len_subspace max_basis self
           else mret tt self) ;;
   basis <~ lift (fun _ => n <- shape0 flat ;; slice0 0 n vh) ;;
   append_subspace basis)%method.

Definition fit (Xtrain : ndarray) (Ytrain : list Z) (no_deform_model : bool)
  : method unit :=
  fun self =>
    (Xrscdt <~ lift (fun self => rscdt_parallel self Xtrain) ;;
     for_each (seq 0 (num_classes self))
       (fit_class Xrscdt Ytrain no_deform_model))%method self.

Definition predict (self : classifier) (Xtest : ndarray) : result (list nat) :=
  NS.predict rscdt_parallel self Xtest.

End Methods.

End RSCDT_NS.

(** ** Rational stand-ins for the imported routines

    Used to run the model on concrete inputs. *)

Module Demo.

(** The decomposition of a rectangular diagonal matrix with a
    non-negative, non-increasing diagonal: [u] and [vh] are the leading
    columns and rows of identity matrices, [s] is the diagonal.  The
    shapes are those of [full_matrices=False] on every matrix. *)
Definition eye (n m : nat) : ndarray :=
  mk_ndarray [n; m]
    (concat (map (fun i => map (fun j => if Nat.eqb i j then 1%Q else 0%Q) (seq 0 m))
               (seq 0 n))).

Definition diag_svd (a : ndarray) : result (ndarray * list Q * ndarray) :=
  match shape a with
  | [n; f] =>
      let k := Nat.min n f in
      Ok (eye n k,
          map (fun i => nth i (nth i (rows a) []) 0%Q) (seq 0 k),
          eye k f)
  | _ => Raise LinAlgError
  end.

(** The square matrix with [s] on its diagonal. *)
Definition np_diag (s : list Q) : ndarray :=
  mk_ndarray [length s; length s]
    (concat (map (fun i => map (fun j => if Nat.eqb i j then nth i s 0%Q else 0%Q)
                              (seq 0 (length s)))
               (seq 0 (length s)))).

(** The square of the 2-norm, which orders rows as the norm does. *)
Definition sq_norm (x : list Q) : Q := dot x x.

(** The image itself as its coefficient array, without its first and
    last rows when the edges are to be removed. *)
Definition trim_forward (c : forward_call) : ndarray :=
  let a := fc_image c in
  if fc_rm_edge c
  then match shape a with
       | r :: rest =>
           mk_ndarray ((r - 2) :: rest)
             (firstn ((r - 2) * prod_shape rest) (skipn (prod_shape rest) (data a)))
       | [] => a
       end
  else a.

#[local] Instance externals : Externals := {|
  np_pi := 355 # 113;
  np_cos := fun x => (1 - x * x / 2)%Q;
  np_sin := fun x => x;
  LA_svd := diag_svd;
  LA_norm := sq_norm;
  cpu_count := 4;
  RadonCDT_forward := trim_forward;
  RadonSCDT_forward := trim_forward
|}.






End Demo.

(** ** Reference definitions

    What the specification says a result is, written without the
    batching of the code; the properties below relate the methods to
    them. *)

Module Spec.

(** The [j]-th item of axis 0. *)
Definition image_at (X : ndarray) (j : nat) : ndarray :=
  let sz := item_size (shape X) in
  mk_ndarray (tl (shape X)) (firstn sz (skipn (j * sz) (data X))).

(** The single-image transform applied to every image of the batch, one
    after the other in the order of the batch, each image offset by
    [eps] as the batch methods do; the results stacked in that order. *)
Definition transform_in_order (single : ndarray -> ndarray) (X : ndarray)
  : result ndarray :=
  np_array (map (fun j => single (add_scalar (image_at X j) eps))
              (seq 0 (hd 0 (shape X)))).

(** The transformed images of consecutive sections of the given sizes,
    from image [st] on. *)
Fixpoint sections (g : nat -> ndarray) (st : nat) (sizes : list nat)
  : list (list ndarray) :=
  match sizes with
  | [] => []
  | sz :: sizes' => map g (seq st sz) :: sections g (st + sz) sizes'
  end.

(** The share of the total singular value mass held by the [r] leading
    singular values. *)
Definition energy (s : list Q) (r : nat) : Q :=
  (np_sum (firstn r s) / np_sum s)%Q.

(** The effective rank: the smallest number of leading singular values
    whose share reaches 99%. *)
Definition effective_rank (s : list Q) : option nat :=
  find (fun r => Qle_bool (99 # 100) (energy s r)) (seq 1 (length s)).

(** What one turn of the loop of [RSCDT_NS.fit] computes from the
    transformed training set: the effective rank of the class and the
    basis it stores. *)
Definition class_outcome {E : Externals} (self : NS.classifier) (Xt : ndarray)
  (Ytrain : list Z) (no_deform_model : bool) (class_idx : nat)
  : result (nat * ndarray) :=
  flat <- NS.class_flat self Xt Ytrain no_deform_model class_idx ;;
  usvh <- LA_svd flat ;;
  r <- RSCDT_NS.max_basis (snd (fst usvh)) ;;
  n <- shape0 flat ;;
  basis <- slice0 0 n (snd usvh) ;;
  Ok (r, basis).

(** The instance after a class of effective rank [r] stored [basis]. *)
Definition record_basis (self : NS.classifier) (r : nat) (basis : ndarray)
  : NS.classifier :=
  NS.mk_classifier (NS.num_classes self) (NS.thetas self) (NS.rm_edge self)
    (NS.subspaces self ++ [basis]) (Nat.max (NS.len_subspace self) r).

(** The shapes of [LA.svd(a, full_matrices=False)] on a matrix of [n]
    rows and [f] columns. *)
Definition reduced_svd_shapes (E : Externals) : Prop :=
  forall a n f u s vh,
    shape a = [n; f] ->
    LA_svd a = Ok (u, s, vh) ->
    shape u = [n; Nat.min n f] /\ well_formed u
    /\ length s = Nat.min n f
    /\ shape vh = [Nat.min n f; f] /\ well_formed vh.

(** The instance after the classes of a whole loop stored theirs. *)
Definition record_all (self : NS.classifier) (outs : list (nat * ndarray))
  : NS.classifier :=
  fold_left (fun st o => record_basis st (fst o) (snd o)) outs self.

(** [self'] keeps what [self] had: the configuration, the bases already
    stored, in their places, and a rank that is not smaller. *)
Definition extends (self self' : NS.classifier) : Prop :=
  NS.num_classes self' = NS.num_classes self
  /\ NS.thetas self' = NS.thetas self
  /\ NS.rm_edge self' = NS.rm_edge self
  /\ (exists new, NS.subspaces self' = NS.subspaces self ++ new)
  /\ NS.len_subspace self <= NS.len_subspace self'.

(** The instance with its rank replaced. *)
Definition with_len_subspace (self : NS.classifier) (n : nat) : NS.classifier :=
  NS.mk_classifier (NS.num_classes self) (NS.thetas self) (NS.rm_edge self)
    (NS.subspaces self) n.

(** Column [f] of the basis rows [B]. *)
Definition column (B : list (list Q)) (f : nat) : list Q :=
  map (fun b => nth f b 0%Q) B.

(** The reconstruction of the sample [x] from its projection on the
    rows of [B]: [proj = x . B^T], then [proj . B]. *)
Definition reconstruction (B : list (list Q)) (x : list Q) : list Q :=
  let proj := map (dot x) B in
  map (fun f => dot proj (column B f)) (seq 0 (length x)).

Definition vsub (x y : list Q) : list Q :=
  map (fun p => (fst p - snd p)%Q) (combine x y).

(** The distance of the sample [x] to the span of the rows of [B]: the
    norm of the reconstruction minus the sample. *)
Definition residual {E : Externals} (B : list (list Q)) (x : list Q) : Q :=
  LA_norm (vsub (reconstruction B x) x).

(** The rows of the basis of class [k] that [predict] uses: the first
    [len_subspace] of those stored. *)
Definition class_rows (self : NS.classifier) (k : nat) : list (list Q) :=
  match nth_error (NS.subspaces self) k with
  | Some b => firstn (NS.len_subspace self) (rows b)
  | None => []
  end.

End Spec.

(** ** Vocabulary of the proofs *)

(** Every array of [l] has shape [s]; the array that [np.array] builds
    from such a list; an array whose shape after axis 0 is [s]. *)
Definition uniform (s : list nat) (l : list ndarray) : bool :=
  forallb (fun b => shape_eqb (shape b) s) l.

Definition stacked (s : list nat) (l : list ndarray) : ndarray :=
  mk_ndarray (length l :: s) (concat (map data l)).

Definition tail_is (s : list nat) (b : ndarray) : bool :=
  match shape b with
  | [] => false
  | _ :: r => shape_eqb r s
  end.

(** The text that [fun_rcdt_batch] and [fun_rscdt_batch] share, over the
    single-image transform; the transform of image [j] of a batch. *)
Definition batch_body (single : ndarray -> ndarray) (data : ndarray) : result ndarray :=
  n <- shape0 data ;;
  l <- sequence
    (map (fun j => I <- index3 data j ;; Ok (single (add_scalar I eps))) (seq 0 n)) ;;
  np_array l.

Definition transformed (single : ndarray -> ndarray) (X : ndarray) (j : nat) : ndarray :=
  single (add_scalar (Spec.image_at X j) eps).

(** * Properties *)

Unset Implicit Arguments.

(** ** Lists, rationals and arrays *)

Lemma fold_left_Qplus_acc (l : list Q) (a : Q) :
  (fold_left Qplus l a == a + np_sum l)%Q.
Proof.
  unfold np_sum. revert a.
  induction l as [|x l IH]; intros a; simpl.
  - ring.
  - rewrite (IH (a + x)%Q), (IH (0 + x)%Q). ring.
Qed.

Lemma np_sum_cons (x : Q) (l : list Q) :
  (np_sum (x :: l) == x + np_sum l)%Q.
Proof.
  unfold np_sum at 1. simpl. rewrite fold_left_Qplus_acc. ring.
Qed.

Lemma np_sum_div (l : list Q) (t : Q) :
  (np_sum (map (fun v => v / t) l) == np_sum l / t)%Q.
Proof.
  induction l as [|x l IH]; simpl.
  - unfold np_sum; simpl. unfold Qdiv. ring.
  - rewrite !np_sum_cons, IH. unfold Qdiv. ring.
Qed.

Lemma np_sum_ones (n : nat) :
  (np_sum (repeat 1 n) == inject_Z (Z.of_nat n))%Q.
Proof.
  induction n as [|n IH].
  - reflexivity.
  - cbn [repeat]. rewrite np_sum_cons, IH, Nat2Z.inj_succ.
    unfold Z.succ. rewrite inject_Z_plus. ring.
Qed.

(** ** The single-image transforms *)

Lemma div_scalar_entries (l : list Q) (t : Q) :
  Forall2 (fun v x => v == x / t)%Q (map (fun v => (v / t)%Q) l) l.
Proof.
  induction l as [|x l IH]; cbn [map].
  - constructor.
  - apply Forall2_cons; [apply Qeq_refl|exact IH].
Qed.

Section SingleTransform.

Context {E : Externals}.

Lemma fun_rcdt_single_forward (self : NS.classifier) (I : ndarray) :
  MY_RDCT_NS.fun_rcdt_single self I
  = RadonCDT_forward (MY_RDCT_NS.fun_rcdt_single_call self I).
Proof. reflexivity. Qed.

Lemma fun_rscdt_single_forward (self : NS.classifier) (I0 : ndarray) :
  RSCDT_NS.fun_rscdt_single self I0
  = RadonSCDT_forward (RSCDT_NS.fun_rscdt_single_call self I0).
Proof. reflexivity. Qed.

(** C8. The unsigned single-image transform calls the forward transform
    on the image and on the all-ones template, each divided by the sum
    of its own elements, so that both sum to one; the signed
    single-image transform calls it on the image as it is and on the
    all-ones template as it is. *)
Theorem single_transform_normalisation (self : NS.classifier) (I : ndarray) :
  0 < prod_shape (shape I) ->
  ~ (np_sum (data I) == 0)%Q ->
  let ones := np_ones (shape I) in
  let image := div_scalar I (np_sum (data I)) in
  let template := div_scalar ones (np_sum (data ones)) in
  (MY_RDCT_NS.fun_rcdt_single self I
   = RadonCDT_forward
       (mk_forward_call (Some (NS.thetas self)) x0_range template x_range image
          (NS.rm_edge self))
   /\ shape image = shape I
   /\ shape template = shape I
   /\ Forall2 (fun v x => v == x / np_sum (data I))%Q (data image) (data I)
   /\ Forall (fun v => v == 1 / inject_Z (Z.of_nat (prod_shape (shape I))))%Q
        (data template)
   /\ (np_sum (data image) == 1)%Q
   /\ (np_sum (data template) == 1)%Q)
  /\ (RSCDT_NS.fun_rscdt_single self I
      = RadonSCDT_forward
          (mk_forward_call None (0%Q, 1%Q) ones (0%Q, 1%Q) I false)
      /\ shape ones = shape I
      /\ Forall (fun v => v = 1%Q) (data ones)).
Proof.
  intros Hpos Hsum ones image template.
  assert (Hones : (np_sum (data ones)
                   == inject_Z (Z.of_nat (prod_shape (shape I))))%Q).
  { unfold ones, np_ones; cbn [data]. apply np_sum_ones. }
  assert (Hsize : ~ (inject_Z (Z.of_nat (prod_shape (shape I))) == 0)%Q).
  { intro H0. change 0%Q with (inject_Z 0) in H0.
    apply -> inject_Z_injective in H0. lia. }
  split; [split; [|split; [|split; [|split; [|split; [|split]]]]] | split; [|split]].
  - reflexivity.
  - reflexivity.
  - reflexivity.
  - unfold image. cbn [div_scalar data]. apply div_scalar_entries.
  - unfold template, ones, np_ones. cbn [div_scalar data].
    apply Forall_forall. intros v Hv. apply in_map_iff in Hv as (x & <- & Hx).
    apply repeat_spec in Hx. subst x. cbv beta.
    rewrite np_sum_ones. reflexivity.
  - etransitivity; [exact (np_sum_div (data I) _)|]. field. exact Hsum.
  - etransitivity; [exact (np_sum_div (data ones) _)|].
    rewrite Hones. field. exact Hsize.
  - reflexivity.
  - reflexivity.
  - unfold ones, np_ones. cbn [data]. apply Forall_forall. intros v Hv.
    apply repeat_spec in Hv. exact Hv.
Qed.

(** C4. In the signed variant the forward transform is built without the
    angles of the instance and is called with the edge flag switched off,
    whatever the instance was constructed with: an instance made with
    angles 0 and 90 and [rm_edge=True] transforms with neither; the batch
    transform of that class does not depend on the instance at all.  The
    unsigned variant passes both. *)
Theorem signed_transform_ignores_configuration :
  let self := NS.init 1 [0%Q; 90%Q] true in
  (forall I0,
      fc_thetas (RSCDT_NS.fun_rscdt_single_call self I0) = None
      /\ fc_thetas (RSCDT_NS.fun_rscdt_single_call self I0) <> Some (NS.thetas self)
      /\ fc_rm_edge (RSCDT_NS.fun_rscdt_single_call self I0) = false
      /\ fc_rm_edge (RSCDT_NS.fun_rscdt_single_call self I0) <> NS.rm_edge self)
  /\ (forall self1 self2 X,
         RSCDT_NS.rscdt_parallel self1 X = RSCDT_NS.rscdt_parallel self2 X)
  /\ (forall self' I,
         fc_thetas (MY_RDCT_NS.fun_rcdt_single_call self' I) = Some (NS.thetas self')
         /\ fc_rm_edge (MY_RDCT_NS.fun_rcdt_single_call self' I) = NS.rm_edge self').
Proof.
  cbv zeta. split; [|split].
  - intros I0. cbn. repeat split; discriminate.
  - reflexivity.
  - intros self' I. split; reflexivity.
Qed.

End SingleTransform.

(** ** The batch transforms *)

Lemma shape_eqb_eq (s t : list nat) : shape_eqb s t = true <-> s = t.
Proof.
  revert t. induction s as [|x s IH]; intros [|y t]; simpl; split;
    try discriminate; try reflexivity.
  - intros H. apply andb_true_iff in H as [Hx Hs].
    apply Nat.eqb_eq in Hx. apply IH in Hs. congruence.
  - intros H. injection H as -> ->.
    rewrite Nat.eqb_refl. simpl. apply IH. reflexivity.
Qed.

Lemma shape_eqb_refl (s : list nat) : shape_eqb s s = true.
Proof. apply shape_eqb_eq. reflexivity. Qed.

Lemma sequence_map_Ok {A B : Type} (f : A -> B) (l : list A) :
  sequence (map (fun x => Ok (f x)) l) = Ok (map f l).
Proof.
  induction l as [|x l IH]; simpl; [reflexivity|].
  rewrite IH. reflexivity.
Qed.

Lemma sequence_ext_in {A B : Type} (f g : A -> result B) (l : list A) :
  (forall x, In x l -> f x = g x) ->
  sequence (map f l) = sequence (map g l).
Proof.
  intros H. rewrite (map_ext_in f g l H). reflexivity.
Qed.

Lemma split_from_length (a : ndarray) (sizes : list nat) (st : nat)
  (l : list ndarray) :
  split_from a st sizes = Ok l -> length l = length sizes.
Proof.
  revert st l. induction sizes as [|sz sizes IH]; intros st l; simpl.
  - intros H. injection H as <-. reflexivity.
  - destruct (slice0 st (st + sz) a) as [x|e]; simpl; [|discriminate].
    destruct (split_from a (st + sz) sizes) as [xs|e] eqn:Hxs; simpl; [|discriminate].
    intros H. injection H as <-. simpl. f_equal. eapply IH. exact Hxs.
Qed.

Section BatchTransform.

Context {E : Externals}.

(** The pool of [rcdt_parallel] has as many processes as the batch has
    sections, and never more than the batch has images. *)
Lemma pool_never_larger_than_batch (X : ndarray) (n : nat) (splits : list ndarray) :
  shape0 X = Ok n ->
  np_array_split X (Nat.min cpu_count n) = Ok splits ->
  length splits = Nat.min cpu_count n /\ Nat.min cpu_count n <= n.
Proof.
  intros Hn Hs. split; [|apply Nat.le_min_r].
  unfold np_array_split in Hs. rewrite Hn in Hs. simpl in Hs.
  destruct (Nat.eqb (Nat.min cpu_count n) 0) eqn:H0; [discriminate|].
  apply Nat.eqb_neq in H0.
  apply split_from_length in Hs. rewrite Hs, length_app, !repeat_length.
  pose proof (Nat.mod_upper_bound n (Nat.min cpu_count n) H0). lia.
Qed.

(** C5. On a batch of zero images the batch transform of the unsigned
    variant raises [ValueError] (the request for zero sections is refused
    before any pool is made), where that of the signed variant returns
    the empty array. *)
Theorem empty_batch_transform (self : NS.classifier) (rest : list nat) (d : list Q) :
  MY_RDCT_NS.rcdt_parallel self (mk_ndarray (0 :: rest) d) = Raise ValueError
  /\ RSCDT_NS.rscdt_parallel self (mk_ndarray (0 :: rest) d) = Ok (mk_ndarray [0] []).
Proof.
  split.
  - unfold MY_RDCT_NS.rcdt_parallel, np_array_split. cbn [shape0 shape rbind].
    rewrite Nat.min_0_r. reflexivity.
  - reflexivity.
Qed.

End BatchTransform.

(** *** Sections of a batch *)

Lemma firstn_block_of_slice (d : list Q) (S st sz j : nat) :
  j < sz ->
  firstn S (skipn (j * S) (firstn (sz * S) (skipn (st * S) d)))
  = firstn S (skipn ((st + j) * S) d).
Proof.
  intros Hj.
  rewrite skipn_firstn_comm, firstn_firstn, skipn_skipn.
  f_equal; [nia | f_equal; lia].
Qed.

Lemma index3_image_at (X : ndarray) (n r c : nat) (rest : list nat) (j : nat) :
  shape X = n :: r :: c :: rest -> j < n ->
  index3 X j = Ok (Spec.image_at X j).
Proof.
  intros Hs Hj. unfold index3, Spec.image_at, item_size. rewrite Hs.
  apply Nat.ltb_lt in Hj. rewrite Hj. reflexivity.
Qed.

Lemma slice0_in_range (X : ndarray) (n : nat) (rest : list nat) (st sz : nat) :
  shape X = n :: rest -> st + sz <= n ->
  slice0 st (st + sz) X
  = Ok (mk_ndarray (sz :: rest)
          (firstn (sz * prod_shape rest) (skipn (st * prod_shape rest) (data X)))).
Proof.
  intros Hs Hle. unfold slice0. rewrite Hs.
  replace (Nat.min (st + sz) n) with (st + sz) by lia.
  replace (Nat.min st (st + sz)) with st by lia.
  replace (st + sz - st) with sz by lia. reflexivity.
Qed.

Lemma image_at_slice (X : ndarray) (rest : list nat) (st sz j : nat) :
  tl (shape X) = rest -> j < sz ->
  Spec.image_at
    (mk_ndarray (sz :: rest)
       (firstn (sz * prod_shape rest) (skipn (st * prod_shape rest) (data X)))) j
  = Spec.image_at X (st + j).
Proof.
  intros Hs Hj. unfold Spec.image_at, item_size. cbn [shape data tl].
  rewrite Hs. f_equal. apply firstn_block_of_slice. exact Hj.
Qed.

Lemma seq_as_shift (st len : nat) : seq st len = map (Nat.add st) (seq 0 len).
Proof.
  revert st. induction len as [|len IH]; intros st; simpl; [reflexivity|].
  f_equal; [lia|].
  rewrite (IH (S st)), <- (seq_shift len 0), map_map.
  apply map_ext. intros; lia.
Qed.

Lemma sections_concat (g : nat -> ndarray) (sizes : list nat) (st : nat) :
  concat (Spec.sections g st sizes) = map g (seq st (list_sum sizes)).
Proof.
  revert st. induction sizes as [|sz sizes IH]; intros st; simpl; [reflexivity|].
  rewrite IH, seq_app, map_app. reflexivity.
Qed.

Lemma sections_nonempty (g : nat -> ndarray) (sizes : list nat) (st : nat) :
  Forall (fun sz => 0 < sz) sizes ->
  Forall (fun l => l <> []) (Spec.sections g st sizes).
Proof.
  revert st. induction sizes as [|sz sizes IH]; intros st H; simpl; [constructor|].
  inversion H as [|? ? Hsz Hrest]; subst. constructor; [|apply IH; exact Hrest].
  destruct sz; [lia|]. simpl. discriminate.
Qed.

Lemma array_split_sizes (n k : nat) :
  0 < k -> k <= n ->
  let sizes := repeat (S (n / k)) (n mod k) ++ repeat (n / k) (k - n mod k) in
  list_sum sizes = n /\ Forall (fun sz => 0 < sz) sizes /\ sizes <> [].
Proof.
  intros Hk Hkn sizes.
  assert (Hdiv : 0 < n / k) by (apply Nat.div_str_pos; lia).
  assert (Hmod : n mod k < k) by (apply Nat.mod_upper_bound; lia).
  assert (Hsum : forall a m, list_sum (repeat a m) = m * a).
  { intros a m. induction m as [|m IH]; simpl; [reflexivity|]. rewrite IH. lia. }
  split; [|split].
  - unfold sizes. rewrite list_sum_app, !Hsum.
    pose proof (Nat.div_mod_eq n k). nia.
  - unfold sizes. apply Forall_app. split; apply Forall_forall; intros x Hx;
      apply repeat_spec in Hx; lia.
  - unfold sizes. intros H. apply (f_equal (@length nat)) in H.
    rewrite length_app, !repeat_length in H. simpl in H. lia.
Qed.

(** *** Stacking sections *)

Lemma np_array_uniform (s : list nat) (l : list ndarray) :
  l <> [] -> uniform s l = true -> np_array l = Ok (stacked s l).
Proof.
  destruct l as [|a l]; [congruence|]. intros _ Hu. unfold np_array.
  assert (Ha : shape a = s).
  { simpl in Hu. apply andb_true_iff in Hu as [Ha _].
    apply shape_eqb_eq. exact Ha. }
  rewrite Ha. fold (uniform s (a :: l)). rewrite Hu. reflexivity.
Qed.

Lemma np_array_Ok_inv (l : list ndarray) (a : ndarray) (out : ndarray) :
  np_array (a :: l) = Ok out ->
  uniform (shape a) (a :: l) = true /\ out = stacked (shape a) (a :: l).
Proof.
  unfold np_array. fold (uniform (shape a) (a :: l)).
  destruct (uniform (shape a) (a :: l)); [|discriminate].
  intros H. injection H as <-. split; reflexivity.
Qed.

Lemma np_array_Raise (l : list ndarray) (e : exn) :
  np_array l = Raise e -> e = ValueError.
Proof.
  destruct l as [|a l]; simpl; [discriminate|].
  destruct (_ && _); [discriminate|]. congruence.
Qed.

Lemma np_concatenate_Raise (l : list ndarray) (e : exn) :
  np_concatenate l = Raise e -> e = ValueError.
Proof.
  unfold np_concatenate. destruct l as [|a l]; [congruence|].
  destruct (shape a); [congruence|].
  destruct (forallb _ _); [discriminate|]. congruence.
Qed.

Lemma sequence_np_array_Raise (ls : list (list ndarray)) (e : exn) :
  sequence (map np_array ls) = Raise e -> e = ValueError.
Proof.
  induction ls as [|l ls IH]; simpl; [discriminate|].
  destruct (np_array l) as [x|e'] eqn:Hx; simpl.
  - destruct (sequence (map np_array ls)) as [xs|e'']; simpl; [discriminate|].
    intros H. injection H as <-. apply IH. reflexivity.
  - intros H. injection H as <-. eapply np_array_Raise. exact Hx.
Qed.

Lemma uniform_app (s : list nat) (l1 l2 : list ndarray) :
  uniform s (l1 ++ l2) = uniform s l1 && uniform s l2.
Proof. apply forallb_app. Qed.

Lemma sequence_np_array_uniform (s : list nat) (ls : list (list ndarray)) :
  Forall (fun l => l <> []) ls ->
  uniform s (concat ls) = true ->
  sequence (map np_array ls) = Ok (map (stacked s) ls).
Proof.
  induction ls as [|l ls IH]; intros Hne Hu; simpl; [reflexivity|].
  inversion Hne as [|? ? Hl Hls]; subst.
  simpl in Hu. rewrite uniform_app in Hu. apply andb_true_iff in Hu as [Hu1 Hu2].
  rewrite (np_array_uniform s l Hl Hu1). simpl.
  rewrite (IH Hls Hu2). reflexivity.
Qed.

Lemma atleast_2d_stacked (s : list nat) (l : list ndarray) :
  s <> [] -> atleast_2d (stacked s l) = stacked s l.
Proof.
  intros Hs. unfold atleast_2d, stacked. cbn [shape].
  destruct s; [congruence|reflexivity].
Qed.

Lemma concat_data_stacked (s : list nat) (ls : list (list ndarray)) :
  concat (map data (map (stacked s) ls)) = concat (map data (concat ls)).
Proof.
  induction ls as [|l ls IH]; simpl; [reflexivity|].
  rewrite IH, map_app, concat_app. reflexivity.
Qed.

Lemma heads_stacked (s : list nat) (ls : list (list ndarray)) :
  fold_right Nat.add 0 (map (fun b => hd 0 (shape b)) (map (stacked s) ls))
  = length (concat ls).
Proof.
  induction ls as [|l ls IH]; simpl; [reflexivity|].
  rewrite IH, length_app. reflexivity.
Qed.

Lemma np_vstack_stacked (s : list nat) (ls : list (list ndarray)) :
  s <> [] -> ls <> [] ->
  np_vstack (map (stacked s) ls) = Ok (stacked s (concat ls)).
Proof.
  intros Hs Hls. unfold np_vstack.
  rewrite (map_ext_in atleast_2d (fun a => a)), map_id.
  2:{ intros a Ha. apply in_map_iff in Ha as (l & <- & _).
      apply atleast_2d_stacked. exact Hs. }
  destruct ls as [|l ls]; [congruence|].
  unfold np_concatenate. cbn [map stacked shape].
  fold (stacked s l).
  change (stacked s l :: map (stacked s) ls) with (map (stacked s) (l :: ls)).
  rewrite (proj2 (forallb_forall _ _)).
  2:{ intros a Ha. apply in_map_iff in Ha as (l' & <- & _).
      cbn [stacked shape]. apply shape_eqb_refl. }
  pose proof (heads_stacked s (l :: ls)) as Hh.
  pose proof (concat_data_stacked s (l :: ls)) as Hd.
  cbn [map] in Hh, Hd. cbn [stacked shape hd] in Hh.
  cbn [hd]. rewrite Hh, Hd. reflexivity.
Qed.

Lemma sequence_np_array_Ok_inv (s : list nat) (ls : list (list ndarray))
  (arrs : list ndarray) :
  Forall (fun l => l <> []) ls ->
  Forall (fun a => shape a <> []) (concat ls) ->
  sequence (map np_array ls) = Ok arrs ->
  forallb (tail_is s) (map atleast_2d arrs) = true ->
  uniform s (concat ls) = true.
Proof.
  revert arrs. induction ls as [|l ls IH]; intros arrs Hne Hsh Hseq Hall;
    [reflexivity|].
  inversion Hne as [|? ? Hl Hls]; subst.
  cbn [concat] in Hsh |- *. apply Forall_app in Hsh as [Hsh1 Hsh2].
  cbn [map sequence] in Hseq.
  destruct (np_array l) as [x|] eqn:Hx; [|discriminate].
  destruct (sequence (map np_array ls)) as [xs|] eqn:Hxs; [|discriminate].
  cbn [rbind] in Hseq. injection Hseq as <-.
  destruct l as [|a l]; [congruence|].
  apply np_array_Ok_inv in Hx as [Hu ->].
  cbn [map forallb] in Hall. apply andb_true_iff in Hall as [Hx Hall].
  assert (Ha : shape a <> []) by (inversion Hsh1; assumption).
  rewrite atleast_2d_stacked in Hx by exact Ha.
  unfold tail_is in Hx. cbn [stacked shape] in Hx.
  apply shape_eqb_eq in Hx. rewrite Hx in Hu.
  rewrite uniform_app, Hu. cbn [andb].
  eapply IH; eauto.
Qed.

Lemma vstack_of_sections (ls : list (list ndarray)) :
  ls <> [] ->
  Forall (fun l => l <> []) ls ->
  Forall (fun a => shape a <> []) (concat ls) ->
  (arrs <- sequence (map np_array ls) ;; np_vstack arrs) = np_array (concat ls).
Proof.
  intros Hls Hne Hsh.
  destruct ls as [|l0 ls]; [congruence|].
  destruct l0 as [|a0 l0]; [inversion Hne; congruence|].
  set (s := shape a0).
  assert (Hs : s <> []) by (inversion Hsh; assumption).
  destruct (uniform s (concat ((a0 :: l0) :: ls))) eqn:U.
  - rewrite (sequence_np_array_uniform s _ Hne U). cbn [rbind].
    rewrite (np_vstack_stacked s _ Hs Hls).
    symmetry. apply np_array_uniform; [discriminate|exact U].
  - assert (Hrhs : np_array (concat ((a0 :: l0) :: ls)) = Raise ValueError).
    { cbn [concat app]. unfold np_array.
      change (forallb _ (a0 :: l0 ++ concat ls))
        with (uniform s (concat ((a0 :: l0) :: ls))).
      rewrite U. reflexivity. }
    rewrite Hrhs.
    destruct (sequence (map np_array ((a0 :: l0) :: ls))) as [arrs|e] eqn:Hseq;
      cbn [rbind].
    2:{ f_equal. eapply sequence_np_array_Raise. exact Hseq. }
    destruct (np_vstack arrs) as [out|e] eqn:V.
    2:{ f_equal. eapply np_concatenate_Raise. exact V. }
    exfalso.
    assert (Hall : forallb (tail_is s) (map atleast_2d arrs) = true).
    { pose proof Hseq as Hseq'. cbn [map sequence] in Hseq'.
      destruct (np_array (a0 :: l0)) as [x|] eqn:Hx; [|discriminate].
      destruct (sequence (map np_array ls)) as [xs|]; [|discriminate].
      cbn [rbind] in Hseq'. injection Hseq' as <-.
      apply np_array_Ok_inv in Hx as [_ ->].
      unfold np_vstack, np_concatenate in V. cbn [map] in V.
      rewrite (atleast_2d_stacked (shape a0) (a0 :: l0) Hs) in V.
      cbn [stacked shape] in V.
      change (forallb _ (?x :: map atleast_2d xs))
        with (forallb (tail_is (shape a0)) (x :: map atleast_2d xs)) in V.
      destruct (forallb _ _) eqn:F in V; [|discriminate].
      cbn [map]. rewrite (atleast_2d_stacked (shape a0) (a0 :: l0) Hs).
      exact F. }
    pose proof (sequence_np_array_Ok_inv s _ arrs Hne Hsh Hseq Hall) as U'.
    congruence.
Qed.

(** *** Both batch methods, over the single-image transform *)

Lemma batch_body_in_order (single : ndarray -> ndarray) (X : ndarray)
  (n r c : nat) (rest : list nat) :
  shape X = n :: r :: c :: rest ->
  batch_body single X = Spec.transform_in_order single X.
Proof.
  intros Hs. unfold batch_body, Spec.transform_in_order, shape0.
  rewrite Hs. cbn [rbind hd].
  rewrite (sequence_ext_in _
             (fun j => Ok (single (add_scalar (Spec.image_at X j) eps)))).
  - rewrite sequence_map_Ok. reflexivity.
  - intros j Hj. apply in_seq in Hj.
    rewrite (index3_image_at X n r c rest j Hs) by lia. reflexivity.
Qed.

Lemma batch_body_slice (single : ndarray -> ndarray) (X : ndarray)
  (r c : nat) (rest : list nat) (st sz : nat) :
  tl (shape X) = r :: c :: rest ->
  batch_body single
    (mk_ndarray (sz :: r :: c :: rest)
       (firstn (sz * prod_shape (r :: c :: rest))
          (skipn (st * prod_shape (r :: c :: rest)) (data X))))
  = np_array (map (transformed single X) (seq st sz)).
Proof.
  intros Hs.
  rewrite (batch_body_in_order single _ sz r c rest) by reflexivity.
  unfold Spec.transform_in_order. cbn [shape hd]. f_equal.
  rewrite (seq_as_shift st sz), map_map.
  apply map_ext_in. intros j Hj. apply in_seq in Hj.
  unfold transformed.
  assert (Hlt : j < sz) by lia.
  rewrite (image_at_slice X (r :: c :: rest) st sz j Hs Hlt). reflexivity.
Qed.

Lemma split_from_sections (single : ndarray -> ndarray) (X : ndarray)
  (n r c : nat) (rest : list nat) (sizes : list nat) (st : nat) :
  shape X = n :: r :: c :: rest ->
  st + list_sum sizes <= n ->
  exists splits,
    split_from X st sizes = Ok splits
    /\ map (batch_body single) splits
       = map np_array (Spec.sections (transformed single X) st sizes).
Proof.
  intros Hs. revert st. induction sizes as [|sz sizes IH]; intros st Hle.
  - exists []. split; reflexivity.
  - change (list_sum (sz :: sizes)) with (sz + list_sum sizes) in Hle.
    destruct (IH (st + sz)) as (splits & Hsp & Hmap); [lia|].
    eexists. cbn [split_from].
    rewrite (slice0_in_range X n (r :: c :: rest) st sz Hs) by lia.
    rewrite Hsp. cbn [rbind]. split; [reflexivity|].
    cbn [map Spec.sections]. rewrite Hmap. f_equal.
    apply batch_body_slice. rewrite Hs. reflexivity.
Qed.

Section InOrder.

Context {E : Externals}.

(** C3. On a batch of one image or more, all of one shape, the batch
    transform of either variant returns what the single-image transform
    gives on every image in the order of the batch (each offset by [eps],
    as the batch methods do), stacked in that order, whatever the number
    of processes the batch is divided among. *)
Theorem batch_transform_in_order (self : NS.classifier) (n r c : nat) (d : list Q) :
  0 < n ->
  0 < cpu_count ->
  (forall call, length (shape (fc_image call)) = 2 ->
                shape (RadonCDT_forward call) <> []) ->
  let X := mk_ndarray [n; r; c] d in
  MY_RDCT_NS.rcdt_parallel self X
  = Spec.transform_in_order (MY_RDCT_NS.fun_rcdt_single self) X
  /\ RSCDT_NS.rscdt_parallel self X
     = Spec.transform_in_order (RSCDT_NS.fun_rscdt_single self) X.
Proof.
  intros Hn Hcpu Hfwd X. split.
  2:{ apply (batch_body_in_order (RSCDT_NS.fun_rscdt_single self) X n r c []).
      reflexivity. }
  set (single := MY_RDCT_NS.fun_rcdt_single self).
  set (k := Nat.min cpu_count n).
  assert (Hk : 0 < k /\ k <= n) by (unfold k; lia).
  destruct (array_split_sizes n k (proj1 Hk) (proj2 Hk)) as (Hsum & Hpos & Hnil).
  set (sizes := repeat (S (n / k)) (n mod k) ++ repeat (n / k) (k - n mod k)) in *.
  destruct (split_from_sections single X n r c [] sizes 0 eq_refl)
    as (splits & Hsp & Hmap); [lia|].
  unfold MY_RDCT_NS.rcdt_parallel, np_array_split. cbn [X shape0 shape rbind].
  fold k. destruct (Nat.eqb k 0) eqn:Hk0; [apply Nat.eqb_eq in Hk0; lia|].
  fold sizes. fold X. rewrite Hsp. cbn [rbind].
  unfold MY_RDCT_NS.mp_Pool. destruct (Nat.ltb k 1) eqn:Hk1;
    [apply Nat.ltb_lt in Hk1; lia|]. cbn [rbind].
  unfold MY_RDCT_NS.pool_map.
  change (MY_RDCT_NS.fun_rcdt_batch self) with (batch_body single).
  rewrite Hmap, vstack_of_sections.
  - rewrite sections_concat, Hsum. reflexivity.
  - destruct sizes; [congruence|discriminate].
  - apply sections_nonempty. exact Hpos.
  - rewrite sections_concat. apply Forall_forall. intros a Ha.
    apply in_map_iff in Ha as (j & <- & _).
    apply Hfwd. reflexivity.
Qed.

End InOrder.

(** ** The deformation samples *)

Lemma chunks_concat_repeat (v : list Q) (p : nat) :
  chunks (length v) p (concat (repeat v p)) = repeat v p.
Proof.
  induction p as [|p IH]; [reflexivity|].
  cbn [repeat concat chunks].
  rewrite firstn_app, firstn_all, Nat.sub_diag, firstn_O, app_nil_r.
  rewrite skipn_app, skipn_all, Nat.sub_diag, skipn_O. cbn [app].
  rewrite IH. reflexivity.
Qed.

Lemma length_concat_repeat (v : list Q) (p : nat) :
  length (concat (repeat v p)) = p * length v.
Proof.
  induction p as [|p IH]; [reflexivity|].
  cbn [repeat concat]. rewrite length_app, IH. reflexivity.
Qed.

Lemma np_repeat0_row (v : list Q) (p : nat) :
  np_repeat0 (newaxis (mk_ndarray [length v] v)) p
  = Ok (mk_ndarray [p; length v] (concat (repeat v p))).
Proof.
  unfold np_repeat0, newaxis. cbn [shape data prod_shape fold_right chunks flat_map].
  rewrite Nat.mul_1_r, firstn_all, !app_nil_r, Nat.mul_1_l. reflexivity.
Qed.

Lemma image_at_prefix (s : list nat) (m m' : nat) (d d' : list Q) (i : nat) :
  (S i) * prod_shape s <= length d ->
  Spec.image_at (mk_ndarray (m :: s) (d ++ d')) i
  = Spec.image_at (mk_ndarray (m' :: s) d) i.
Proof.
  intros Hi. unfold Spec.image_at, item_size. cbn [shape data tl]. f_equal.
  rewrite skipn_app, firstn_app.
  replace (prod_shape s - length (skipn (i * prod_shape s) d)) with 0.
  - rewrite firstn_O, app_nil_r. reflexivity.
  - rewrite length_skipn. simpl in Hi. lia.
Qed.

Lemma image_at_suffix (s : list nat) (m : nat) (d d' : list Q) (i k : nat) :
  length d = i * prod_shape s ->
  Spec.image_at (mk_ndarray (m :: s) (d ++ d')) (i + k)
  = Spec.image_at (mk_ndarray (m :: s) d') k.
Proof.
  intros Hd. unfold Spec.image_at, item_size. cbn [shape data tl]. f_equal.
  f_equal. rewrite skipn_app.
  rewrite skipn_all2 by lia. cbn [app]. f_equal. lia.
Qed.

Section Deformation.

Context {E : Externals}.

(** C9. On the coefficient array of a class, of shape [(n, P, A)] with
    [A] the number of angles of the instance, [add_trans_samples] returns
    an array of shape [(n+2, P, A)]: its first [n] samples are those of
    the input, sample [n] has [P] rows that are each the cosines of the
    angles, sample [n+1] has [P] rows that are each their sines, the
    angles being multiplied by pi/180. *)
Theorem add_trans_samples_appends_two (self : NS.classifier) (n P A : nat)
  (d : list Q) :
  length (NS.thetas self) = A ->
  length d = n * (P * A) ->
  let features := mk_ndarray [n; P; A] d in
  let v1 := map (fun t => np_cos (t * np_pi / 180)%Q) (NS.thetas self) in
  let v2 := map (fun t => np_sin (t * np_pi / 180)%Q) (NS.thetas self) in
  exists out,
    NS.add_trans_samples self features = Ok out
    /\ shape out = [n + 2; P; A]
    /\ well_formed out
    /\ (forall i, i < n -> Spec.image_at out i = Spec.image_at features i)
    /\ rows (Spec.image_at out n) = repeat v1 P
    /\ rows (Spec.image_at out (n + 1)) = repeat v2 P.
Proof.
  intros HA Hd features v1 v2.
  assert (Hl1 : length v1 = A) by (unfold v1; rewrite length_map; exact HA).
  assert (Hl2 : length v2 = A) by (unfold v2; rewrite length_map; exact HA).
  exists (mk_ndarray [n + 2; P; A]
            (d ++ concat (repeat v1 P) ++ concat (repeat v2 P))).
  split; [|split; [reflexivity|split; [|split; [|split]]]].
  - unfold NS.add_trans_samples. cbn [features shape1 shape rbind].
    rewrite !map_map. fold v1. fold v2.
    rewrite !length_map.
    rewrite <- (length_map (fun t => np_cos (t * np_pi / 180)%Q) (NS.thetas self)) at 1.
    fold v1. rewrite np_repeat0_row. cbn [rbind].
    rewrite <- (length_map (fun t => np_sin (t * np_pi / 180)%Q) (NS.thetas self)).
    fold v2. rewrite np_repeat0_row. cbn [rbind].
    unfold np_concatenate, newaxis. cbn [shape data map hd forallb fold_right concat].
    unfold features. cbn [shape data hd].
    rewrite Hl1, Hl2, !shape_eqb_refl. cbn [andb].
    rewrite app_nil_r. do 3 f_equal.
  - unfold well_formed. cbn [shape data prod_shape fold_right].
    rewrite !length_app, !length_concat_repeat, Hl1, Hl2, Hd. lia.
  - intros i Hi. unfold features. apply image_at_prefix.
    cbn [prod_shape fold_right]. rewrite Hd. nia.
  - rewrite <- (Nat.add_0_r n) at 2.
    rewrite (image_at_suffix [P; A] (n + 2) d _ n 0)
      by (cbn [prod_shape fold_right]; rewrite Hd; lia).
    unfold Spec.image_at, item_size, rows.
    cbn [shape data tl prod_shape fold_right skipn Nat.mul].
    rewrite Nat.mul_1_r, firstn_app, length_concat_repeat, Hl1.
    rewrite firstn_all2 by (rewrite length_concat_repeat; lia).
    rewrite Nat.sub_diag, firstn_O, app_nil_r.
    rewrite <- Hl1 at 1. apply chunks_concat_repeat.
  - rewrite (image_at_suffix [P; A] (n + 2) d _ n 1)
      by (cbn [prod_shape fold_right]; rewrite Hd; lia).
    unfold Spec.image_at, item_size, rows.
    cbn [shape data tl prod_shape fold_right].
    rewrite Nat.mul_1_r, Nat.mul_1_l.
    rewrite skipn_app, length_concat_repeat, Hl1.
    rewrite skipn_all2 by (rewrite length_concat_repeat; lia).
    rewrite Nat.sub_diag, skipn_O. cbn [app].
    rewrite firstn_all2 by (rewrite length_concat_repeat; lia).
    rewrite <- Hl2 at 1. apply chunks_concat_repeat.
Qed.

End Deformation.

(** ** The effective rank *)

Lemma np_sum_nonneg (s : list Q) :
  Forall (fun x => 0 <= x)%Q s -> (0 <= np_sum s)%Q.
Proof.
  induction 1 as [|x s Hx Hs IH].
  - unfold np_sum. simpl. lra.
  - rewrite np_sum_cons. lra.
Qed.

Lemma np_sum_pos (s : list Q) :
  Forall (fun x => 0 <= x)%Q s -> Exists (fun x => 0 < x)%Q s -> (0 < np_sum s)%Q.
Proof.
  intros Hnn Hex. induction Hnn as [|x s Hx Hs IH].
  - inversion Hex.
  - rewrite np_sum_cons. pose proof (np_sum_nonneg s Hs) as H0.
    inversion Hex as [? ? Hpos|? ? Hrest]; subst.
    + lra.
    + specialize (IH Hrest). lra.
Qed.

Lemma Forall2_Qeq_map_r (f g : nat -> Q) (rs : list nat) (l : list Q) :
  (forall r, f r == g r)%Q ->
  Forall2 Qeq l (map f rs) -> Forall2 Qeq l (map g rs).
Proof.
  intros Hfg. revert l. induction rs as [|r rs IH]; intros l H;
    inversion H; subst; constructor.
  - rewrite <- Hfg. assumption.
  - apply IH. assumption.
Qed.

Lemma cumsum_from_prefix_sums (s : list Q) (acc : Q) :
  Forall2 Qeq (cumsum_from acc s)
    (map (fun r => acc + np_sum (firstn r s))%Q (seq 1 (length s))).
Proof.
  revert acc. induction s as [|x s IH]; intros acc; [constructor|].
  cbn [cumsum_from length seq map]. constructor.
  - cbn [firstn]. rewrite np_sum_cons. unfold np_sum; simpl. ring.
  - rewrite <- seq_shift, map_map.
    apply (Forall2_Qeq_map_r (fun r => acc + x + np_sum (firstn r s))%Q).
    + intros r. cbn [firstn]. rewrite np_sum_cons. ring.
    + apply IH.
Qed.

Lemma np_cumsum_prefix_sums (s : list Q) :
  Forall2 Qeq (np_cumsum s) (map (fun r => np_sum (firstn r s)) (seq 1 (length s))).
Proof.
  destruct s as [|x s]; [constructor|].
  cbn [np_cumsum length seq map]. constructor.
  - cbn [firstn]. rewrite np_sum_cons. unfold np_sum; simpl. ring.
  - rewrite <- seq_shift, map_map.
    apply (Forall2_Qeq_map_r (fun r => x + np_sum (firstn r s))%Q).
    + intros r. cbn [firstn]. rewrite np_sum_cons. ring.
    + apply cumsum_from_prefix_sums.
Qed.

Lemma max_of_cumsum_from (s : list Q) (acc : Q) :
  Forall (fun x => 0 <= x)%Q s ->
  (fold_left qmax (cumsum_from acc s) acc == acc + np_sum s)%Q.
Proof.
  intros Hnn. revert acc. induction Hnn as [|x s Hx Hs IH]; intros acc.
  - unfold np_sum. simpl. ring.
  - cbn [cumsum_from fold_left]. unfold qmax at 2.
    assert (Hle : Qle_bool acc (acc + x) = true) by (apply Qle_bool_iff; lra).
    rewrite Hle, IH, np_sum_cons. ring.
Qed.

(** The maximum of the cumulative sums of non-negative numbers is their
    total. *)
Lemma np_max_cumsum (s : list Q) :
  Forall (fun x => 0 <= x)%Q s -> s <> [] ->
  exists m, np_max (np_cumsum s) = Ok m /\ (m == np_sum s)%Q.
Proof.
  intros Hnn Hne. destruct s as [|x s]; [congruence|].
  inversion Hnn as [|? ? Hx Hs]; subst.
  eexists. split; [reflexivity|].
  rewrite max_of_cumsum_from by assumption. rewrite np_sum_cons. reflexivity.
Qed.

Lemma where_ge_first (c : Q) (f : nat -> bool) (n : nat) :
  forall (st i : nat) (l : list Q),
    Forall2 (fun x r => Qle_bool c x = f r) l (seq st n) ->
    getitem (where_ge_from i l c) 0
    = match find f (seq st n) with
      | Some r => Ok (i + (r - st))
      | None => Raise IndexError
      end.
Proof.
  induction n as [|n IH]; intros st i l H; cbn [seq] in *;
    inversion H as [|x r l' rs Hx Hrest]; subst.
  - reflexivity.
  - cbn [where_ge_from find]. rewrite Hx. destruct (f st) eqn:Hf.
    + unfold getitem. cbn [nth_error]. f_equal. lia.
    + rewrite (IH (S st) (S i) l' Hrest).
      destruct (find f (seq (S st) n)) as [r|] eqn:Hfind; [|reflexivity].
      apply find_some in Hfind as [Hin _]. apply in_seq in Hin. f_equal. lia.
Qed.

Lemma find_seq_first (f : nat -> bool) (n : nat) :
  forall (st r : nat),
    find f (seq st n) = Some r ->
    (st <= r < st + n) /\ f r = true /\ (forall r', st <= r' < r -> f r' = false).
Proof.
  induction n as [|n IH]; intros st r H; [discriminate|].
  cbn [seq find] in H. destruct (f st) eqn:Hf.
  - injection H as <-. repeat split; [lia|lia|exact Hf|intros; lia].
  - apply IH in H as (Hr & Hfr & Hmin). repeat split; [lia|lia|exact Hfr|].
    intros r' Hr'. destruct (Nat.eq_dec r' st) as [->|Hne]; [exact Hf|].
    apply Hmin. lia.
Qed.

Section EffectiveRank.

Context {E : Externals}.

(** C7. When the singular values are non-negative and one of them is
    positive, the maximum by which [fit] divides the cumulative sums is
    the sum of all the singular values, and [max_basis] is the effective
    rank: the smallest [r] for which the [r] leading singular values hold
    99% of that sum. *)
Theorem max_basis_is_effective_rank (s : list Q) :
  Forall (fun x => 0 <= x)%Q s ->
  Exists (fun x => 0 < x)%Q s ->
  exists m r,
    np_max (np_cumsum s) = Ok m /\ (m == np_sum s)%Q
    /\ RSCDT_NS.max_basis s = Ok r
    /\ Spec.effective_rank s = Some r
    /\ 1 <= r <= length s
    /\ (99 # 100 <= Spec.energy s r)%Q
    /\ (forall r', 1 <= r' < r -> (Spec.energy s r' < 99 # 100)%Q).
Proof.
  intros Hnn Hex.
  assert (Hne : s <> []) by (intros ->; inversion Hex).
  pose proof (np_sum_pos s Hnn Hex) as Hpos.
  destruct (np_max_cumsum s Hnn Hne) as (m & Hm & Hmeq).
  set (f := fun r => Qle_bool (99 # 100) (Spec.energy s r)).
  assert (Hrel : Forall2 (fun x r => Qle_bool (99 # 100) x = f r)
                   (map (fun c => (c / m)%Q) (np_cumsum s)) (seq 1 (length s))).
  { pose proof (np_cumsum_prefix_sums s) as H.
    revert H. generalize (np_cumsum s) as cum. generalize (seq 1 (length s)) as rs.
    induction rs as [|r rs IH]; intros cum H; inversion H as [|x y l l' Hxy Hl]; subst;
      constructor.
    - unfold f, Spec.energy. rewrite Hxy, Hmeq. reflexivity.
    - apply IH. exact Hl. }
  assert (Hfull : f (length s) = true).
  { unfold f, Spec.energy. rewrite firstn_all. apply Qle_bool_iff.
    setoid_replace (np_sum s / np_sum s)%Q with 1%Q by (field; lra). lra. }
  assert (Hlen : 1 <= length s) by (destruct s; [congruence|simpl; lia]).
  destruct (find f (seq 1 (length s))) as [r|] eqn:Hfind.
  2:{ exfalso. pose proof (find_none f _ Hfind (length s)) as Hn.
      rewrite Hfull in Hn. assert (In (length s) (seq 1 (length s))) by (apply in_seq; lia).
      specialize (Hn H). discriminate. }
  destruct (find_seq_first f (length s) 1 r Hfind) as (Hr & Hfr & Hmin).
  exists m, r. split; [exact Hm|]. split; [exact Hmeq|]. split; [|split; [|split; [|split]]].
  - unfold RSCDT_NS.max_basis. rewrite Hm. cbn [rbind]. unfold np_where_ge.
    rewrite (where_ge_first (99 # 100) f (length s) 1 0 _ Hrel), Hfind.
    cbn [rbind]. f_equal. lia.
  - exact Hfind.
  - lia.
  - apply Qle_bool_iff. exact Hfr.
  - intros r' Hr'. specialize (Hmin r' Hr'). unfold f in Hmin.
    apply Qnot_le_lt. intros Hle. apply Qle_bool_iff in Hle. congruence.
Qed.

End EffectiveRank.

(** ** Fitting *)

Section Fit.

Context {E : Externals}.

Lemma fit_class_stores (Xt : ndarray) (Y : list Z) (ndm : bool) (k : nat)
  (self : NS.classifier) (r : nat) (basis : ndarray) :
  Spec.class_outcome self Xt Y ndm k = Ok (r, basis) ->
  RSCDT_NS.fit_class Xt Y ndm k self = (Ok tt, Spec.record_basis self r basis).
Proof.
  unfold Spec.class_outcome, RSCDT_NS.fit_class, NS.mbind, NS.lift.
  destruct (NS.class_flat self Xt Y ndm k) as [flat|]; [|discriminate].
  cbn [rbind]. destruct (LA_svd flat) as [[[u s] vh]|]; [|discriminate].
  cbn [rbind fst snd]. destruct (RSCDT_NS.max_basis s) as [r'|]; [|discriminate].
  cbn [rbind]. destruct (shape0 flat) as [n|] eqn:Hn; [|discriminate].
  cbn [rbind]. destruct (slice0 0 n vh) as [b|] eqn:Hb; [|discriminate].
  cbn [rbind]. intros H. injection H as -> ->.
  unfold Spec.record_basis, NS.append_subspace, NS.set_len_subspace, NS.mret.
  destruct (Nat.ltb (NS.len_subspace self) r) eqn:Hlt; cbn.
  - apply Nat.ltb_lt in Hlt. do 2 f_equal. lia.
  - apply Nat.ltb_ge in Hlt. do 2 f_equal. lia.
Qed.

Lemma fit_class_Ok_inv (Xt : ndarray) (Y : list Z) (ndm : bool) (k : nat)
  (self self' : NS.classifier) :
  RSCDT_NS.fit_class Xt Y ndm k self = (Ok tt, self') ->
  exists r basis,
    Spec.class_outcome self Xt Y ndm k = Ok (r, basis)
    /\ self' = Spec.record_basis self r basis.
Proof.
  intros H.
  destruct (Spec.class_outcome self Xt Y ndm k) as [[r basis]|e] eqn:Hout.
  - exists r, basis. split; [reflexivity|].
    rewrite (fit_class_stores Xt Y ndm k self r basis Hout) in H. congruence.
  - exfalso. revert H Hout.
    unfold Spec.class_outcome, RSCDT_NS.fit_class, NS.mbind, NS.lift.
    destruct (NS.class_flat self Xt Y ndm k) as [flat|]; [|discriminate].
    cbn [rbind]. destruct (LA_svd flat) as [[[u s] vh]|]; [|discriminate].
    cbn [rbind fst snd]. destruct (RSCDT_NS.max_basis s) as [r'|]; [|discriminate].
    cbn [rbind]. destruct (shape0 flat) as [n|]; cbn [rbind];
      destruct (Nat.ltb (NS.len_subspace self) r'); cbn; try discriminate;
      destruct (slice0 0 n vh); cbn; discriminate.
Qed.

Lemma class_flat_thetas (self1 self2 : NS.classifier) (Xt : ndarray) (Y : list Z)
  (ndm : bool) (k : nat) :
  NS.thetas self1 = NS.thetas self2 ->
  NS.class_flat self1 Xt Y ndm k = NS.class_flat self2 Xt Y ndm k.
Proof.
  intros H. unfold NS.class_flat, NS.add_trans_samples. rewrite H. reflexivity.
Qed.

Lemma class_outcome_thetas (self1 self2 : NS.classifier) (Xt : ndarray) (Y : list Z)
  (ndm : bool) (k : nat) :
  NS.thetas self1 = NS.thetas self2 ->
  Spec.class_outcome self1 Xt Y ndm k = Spec.class_outcome self2 Xt Y ndm k.
Proof.
  intros H. unfold Spec.class_outcome.
  rewrite (class_flat_thetas self1 self2 Xt Y ndm k H). reflexivity.
Qed.

Lemma record_all_fields (outs : list (nat * ndarray)) (self : NS.classifier) :
  NS.num_classes (Spec.record_all self outs) = NS.num_classes self
  /\ NS.thetas (Spec.record_all self outs) = NS.thetas self
  /\ NS.rm_edge (Spec.record_all self outs) = NS.rm_edge self
  /\ NS.subspaces (Spec.record_all self outs) = NS.subspaces self ++ map snd outs
  /\ NS.len_subspace (Spec.record_all self outs)
     = fold_left Nat.max (map fst outs) (NS.len_subspace self).
Proof.
  revert self. induction outs as [|o outs IH]; intros self.
  - cbn. rewrite app_nil_r. repeat split.
  - cbn [Spec.record_all fold_left map].
    destruct (IH (Spec.record_basis self (fst o) (snd o))) as (H1 & H2 & H3 & H4 & H5).
    unfold Spec.record_all in *. rewrite H1, H2, H3, H4, H5.
    cbn. rewrite <- app_assoc. repeat split.
Qed.

Lemma fit_loop_stores (Xt : ndarray) (Y : list Z) (ndm : bool) (self0 : NS.classifier)
  (ks : list nat) :
  forall (self : NS.classifier) (outs : list (nat * ndarray)),
    NS.thetas self = NS.thetas self0 ->
    sequence (map (Spec.class_outcome self0 Xt Y ndm) ks) = Ok outs ->
    NS.for_each ks (RSCDT_NS.fit_class Xt Y ndm) self
    = (Ok tt, Spec.record_all self outs).
Proof.
  induction ks as [|k ks IH]; intros self outs Hth Hseq.
  - injection Hseq as <-. reflexivity.
  - cbn [map sequence] in Hseq.
    destruct (Spec.class_outcome self0 Xt Y ndm k) as [[r basis]|] eqn:Hk; [|discriminate].
    destruct (sequence (map (Spec.class_outcome self0 Xt Y ndm) ks)) as [outs'|] eqn:Hks;
      [|discriminate].
    cbn [rbind] in Hseq. injection Hseq as <-.
    cbn [NS.for_each]. unfold NS.mbind.
    rewrite (fit_class_stores Xt Y ndm k self r basis)
      by (rewrite (class_outcome_thetas self self0 Xt Y ndm k Hth); exact Hk).
    exact (IH (Spec.record_basis self r basis) outs' Hth eq_refl).
Qed.

Lemma fit_loop_Ok_inv (Xt : ndarray) (Y : list Z) (ndm : bool) (self0 : NS.classifier)
  (ks : list nat) :
  forall (self self' : NS.classifier),
    NS.thetas self = NS.thetas self0 ->
    NS.for_each ks (RSCDT_NS.fit_class Xt Y ndm) self = (Ok tt, self') ->
    exists outs,
      sequence (map (Spec.class_outcome self0 Xt Y ndm) ks) = Ok outs
      /\ self' = Spec.record_all self outs.
Proof.
  induction ks as [|k ks IH]; intros self self' Hth H.
  - exists []. cbn in H. injection H as <-. split; reflexivity.
  - cbn [NS.for_each] in H. unfold NS.mbind in H.
    destruct (RSCDT_NS.fit_class Xt Y ndm k self) as [[[]|e] self1] eqn:Hk;
      [|discriminate].
    apply fit_class_Ok_inv in Hk as (r & basis & Hout & ->).
    apply IH in H as (outs & Hseq & ->); [|cbn; exact Hth].
    exists ((r, basis) :: outs). split; [|reflexivity].
    cbn [map sequence].
    rewrite <- (class_outcome_thetas self self0 Xt Y ndm k Hth), Hout, Hseq.
    reflexivity.
Qed.

Lemma sequence_length {A : Type} (l : list (result A)) (xs : list A) :
  sequence l = Ok xs -> length xs = length l.
Proof.
  revert xs. induction l as [|r l IH]; intros xs H.
  - injection H as <-. reflexivity.
  - cbn in H. destruct r as [x|]; [|discriminate].
    destruct (sequence l) as [xs'|]; [|discriminate].
    cbn in H. injection H as <-. cbn. f_equal. apply IH. reflexivity.
Qed.

(** A call of [RSCDT_NS.fit] that returns: the training set was
    transformed, every class gave a rank and a basis, and the instance
    recorded them in the order of the labels. *)
Lemma fit_Ok_inv (X : ndarray) (Y : list Z) (ndm : bool) (self self' : NS.classifier) :
  RSCDT_NS.fit X Y ndm self = (Ok tt, self') ->
  exists Xt outs,
    RSCDT_NS.rscdt_parallel self X = Ok Xt
    /\ sequence (map (Spec.class_outcome self Xt Y ndm) (seq 0 (NS.num_classes self)))
       = Ok outs
    /\ length outs = NS.num_classes self
    /\ self' = Spec.record_all self outs.
Proof.
  unfold RSCDT_NS.fit, NS.mbind, NS.lift. intros H.
  destruct (RSCDT_NS.rscdt_parallel self X) as [Xt|]; [|discriminate].
  apply (fit_loop_Ok_inv Xt Y ndm self) in H as (outs & Hseq & ->); [|reflexivity].
  exists Xt, outs. repeat split; try assumption.
  apply sequence_length in Hseq. rewrite Hseq, length_map, length_seq. reflexivity.
Qed.

(** [RSCDT_NS.fit] returns whenever the transform and every class do. *)
Lemma fit_stores (X : ndarray) (Y : list Z) (ndm : bool) (self : NS.classifier)
  (Xt : ndarray) (outs : list (nat * ndarray)) :
  RSCDT_NS.rscdt_parallel self X = Ok Xt ->
  sequence (map (Spec.class_outcome self Xt Y ndm) (seq 0 (NS.num_classes self)))
  = Ok outs ->
  RSCDT_NS.fit X Y ndm self = (Ok tt, Spec.record_all self outs).
Proof.
  intros HX Hseq. unfold RSCDT_NS.fit, NS.mbind, NS.lift. rewrite HX.
  apply (fit_loop_stores Xt Y ndm self); [reflexivity|exact Hseq].
Qed.

Lemma extends_refl (self : NS.classifier) : Spec.extends self self.
Proof.
  unfold Spec.extends. repeat split; try reflexivity.
  exists []. rewrite app_nil_r. reflexivity.
Qed.

Lemma extends_trans (a b c : NS.classifier) :
  Spec.extends a b -> Spec.extends b c -> Spec.extends a c.
Proof.
  intros (H1 & H2 & H3 & (n1 & H4) & H5) (G1 & G2 & G3 & (n2 & G4) & G5).
  unfold Spec.extends. repeat split; try congruence; [|lia].
  exists (n1 ++ n2). rewrite G4, H4, app_assoc. reflexivity.
Qed.

Lemma fit_class_extends (Xt : ndarray) (Y : list Z) (ndm : bool) (k : nat)
  (self self' : NS.classifier) (res : result unit) :
  RSCDT_NS.fit_class Xt Y ndm k self = (res, self') -> Spec.extends self self'.
Proof.
  unfold RSCDT_NS.fit_class, NS.mbind, NS.lift.
  destruct (NS.class_flat self Xt Y ndm k) as [flat|].
  2:{ intros H; injection H as _ <-. apply extends_refl. }
  destruct (LA_svd flat) as [[[u s] vh]|].
  2:{ intros H; injection H as _ <-. apply extends_refl. }
  destruct (RSCDT_NS.max_basis s) as [r|].
  2:{ intros H; injection H as _ <-. apply extends_refl. }
  destruct (Nat.ltb (NS.len_subspace self) r) eqn:Hlt;
    [apply Nat.ltb_lt in Hlt|apply Nat.ltb_ge in Hlt];
    cbn; destruct (shape0 flat) as [n|]; cbn;
    try destruct (slice0 0 n vh) as [basis|]; cbn;
    intros H; injection H as _ <-; unfold Spec.extends; cbn;
    repeat split; try lia;
    try (exists []; rewrite app_nil_r; reflexivity);
    eexists; reflexivity.
Qed.

Lemma for_each_extends (Xt : ndarray) (Y : list Z) (ndm : bool) (ks : list nat) :
  forall (self self' : NS.classifier) (res : result unit),
    NS.for_each ks (RSCDT_NS.fit_class Xt Y ndm) self = (res, self') ->
    Spec.extends self self'.
Proof.
  induction ks as [|k ks IH]; intros self self' res H.
  - cbn in H. injection H as _ <-. apply extends_refl.
  - cbn [NS.for_each] in H. unfold NS.mbind in H.
    destruct (RSCDT_NS.fit_class Xt Y ndm k self) as [[[]|e] self1] eqn:Hk.
    + apply fit_class_extends in Hk. apply IH in H.
      eapply extends_trans; eassumption.
    + injection H as _ <-. eapply fit_class_extends. exact Hk.
Qed.

(** Whether it returns or raises, [RSCDT_NS.fit] leaves an instance
    that keeps what it had. *)
Lemma fit_extends (X : ndarray) (Y : list Z) (ndm : bool)
  (self self' : NS.classifier) (res : result unit) :
  RSCDT_NS.fit X Y ndm self = (res, self') -> Spec.extends self self'.
Proof.
  unfold RSCDT_NS.fit, NS.mbind, NS.lift.
  destruct (RSCDT_NS.rscdt_parallel self X) as [Xt|].
  - apply for_each_extends.
  - intros H. injection H as _ <-. apply extends_refl.
Qed.

(** [MY_RDCT_NS.fit] leaves the instance as it found it. *)
Lemma unsigned_fit_state (X : ndarray) (Y : list Z) (ndm : bool) (self : NS.classifier) :
  snd (MY_RDCT_NS.fit X Y ndm self) = self.
Proof.
  unfold MY_RDCT_NS.fit, NS.mbind at 1, NS.lift at 1.
  destruct (MY_RDCT_NS.rcdt_parallel self X) as [Xt|]; [|reflexivity].
  generalize (seq 0 (NS.num_classes self)) as ks.
  induction ks as [|k ks IH]; [reflexivity|].
  cbn [NS.for_each]. unfold NS.mbind at 1. unfold NS.mbind at 1. unfold NS.lift at 1.
  destruct (NS.class_flat self Xt Y ndm k); [exact IH|reflexivity].
Qed.

End Fit.

Lemma sequence_nth_error {A B : Type} (f : A -> result B) (l : list A) :
  forall (xs : list B) (i : nat) (a : A),
    sequence (map f l) = Ok xs ->
    nth_error l i = Some a ->
    exists x, f a = Ok x /\ nth_error xs i = Some x.
Proof.
  induction l as [|a0 l IH]; intros xs i a Hseq Hi.
  - destruct i; discriminate.
  - cbn [map sequence] in Hseq.
    destruct (f a0) as [x0|] eqn:H0; [|discriminate].
    destruct (sequence (map f l)) as [xs'|] eqn:Hxs; [|discriminate].
    cbn [rbind] in Hseq. injection Hseq as <-.
    destruct i as [|i].
    + injection Hi as <-. exists x0. split; [exact H0|reflexivity].
    + cbn [nth_error] in Hi |- *. eapply IH; [reflexivity|exact Hi].
Qed.

Lemma nth_error_seq0 (n k : nat) : k < n -> nth_error (seq 0 n) k = Some k.
Proof.
  intros Hk. rewrite nth_error_nth' with (d := 0) by (rewrite length_seq; exact Hk).
  rewrite seq_nth by exact Hk. reflexivity.
Qed.

Lemma slice0_whole (vh : ndarray) (k f n : nat) :
  shape vh = [k; f] -> well_formed vh -> k <= n ->
  slice0 0 n vh = Ok vh.
Proof.
  intros Hs Hwf Hk. unfold slice0. rewrite Hs.
  replace (Nat.min n k) with k by lia.
  rewrite Nat.min_0_l, Nat.sub_0_r. cbn [Nat.mul skipn].
  unfold well_formed in Hwf. rewrite Hs in Hwf.
  rewrite firstn_all2 by (rewrite Hwf; cbn [prod_shape fold_right]; lia).
  destruct vh as [sh dt]. cbn in Hs |- *. rewrite Hs. reflexivity.
Qed.

Section StoredBasis.

Context {E : Externals}.

(** The bases that a call of [RSCDT_NS.fit] appends, class by class. *)
Lemma fit_class_basis (X : ndarray) (Y : list Z) (ndm : bool)
  (self self' : NS.classifier) (Xt : ndarray) (k : nat) :
  RSCDT_NS.fit X Y ndm self = (Ok tt, self') ->
  RSCDT_NS.rscdt_parallel self X = Ok Xt ->
  k < NS.num_classes self ->
  exists r basis,
    Spec.class_outcome self Xt Y ndm k = Ok (r, basis)
    /\ nth_error (NS.subspaces self') (length (NS.subspaces self) + k) = Some basis
    /\ r <= NS.len_subspace self'.
Proof.
  intros Hfit HX Hk.
  apply fit_Ok_inv in Hfit as (Xt' & outs & HX' & Hseq & Hlen & ->).
  assert (Xt' = Xt) by congruence. subst Xt'.
  destruct (sequence_nth_error _ _ outs k k Hseq (nth_error_seq0 _ k Hk))
    as ([r basis] & Hout & Hnth).
  exists r, basis. split; [exact Hout|].
  destruct (record_all_fields outs self) as (_ & _ & _ & Hsub & Hl).
  rewrite Hsub, Hl. split.
  - rewrite nth_error_app2 by lia.
    replace (length (NS.subspaces self) + k - length (NS.subspaces self)) with k by lia.
    rewrite nth_error_map, Hnth. reflexivity.
  - apply nth_error_split in Hnth as (l1 & l2 & -> & _).
    rewrite map_app, fold_left_app. cbn [map fold_left fst].
    generalize (fold_left Nat.max (map fst l1) (NS.len_subspace self)) as m.
    generalize (map fst l2) as rs. clear.
    induction rs as [|r' rs IH]; intros m; cbn [fold_left]; [lia|].
    specialize (IH (Nat.max (Nat.max m r) r')).
    assert (Hmono : forall a b, a <= b ->
                    fold_left Nat.max rs a <= fold_left Nat.max rs b).
    { clear. induction rs as [|x rs IH]; intros a b Hab; cbn; [exact Hab|].
      apply IH. lia. }
    pose proof (Hmono (Nat.max m r) (Nat.max (Nat.max m r) r') ltac:(lia)).
    assert (Hge : forall a, a <= fold_left Nat.max rs a).
    { clear. induction rs as [|x rs IH]; intros a; cbn; [lia|].
      specialize (IH (Nat.max a x)). lia. }
    pose proof (Hge (Nat.max (Nat.max m r) r')). lia.
Qed.

End StoredBasis.

Lemma length_concat_map_const {A : Type} (g : nat -> list A) (m : nat) (l : list nat) :
  (forall i, length (g i) = m) ->
  length (concat (map g l)) = length l * m.
Proof.
  intros Hg. induction l as [|i l IH]; [reflexivity|].
  cbn [map concat length]. rewrite length_app, Hg, IH. reflexivity.
Qed.

Lemma eye_well_formed (n m : nat) : well_formed (Demo.eye n m).
Proof.
  unfold well_formed, Demo.eye. cbn [shape data prod_shape fold_right].
  rewrite (length_concat_map_const _ m).
  - rewrite length_seq. lia.
  - intros i. rewrite length_map, length_seq. reflexivity.
Qed.

Lemma demo_svd_shapes : Spec.reduced_svd_shapes Demo.externals.
Proof.
  intros a n f u s vh Hs. cbn [LA_svd Demo.externals]. unfold Demo.diag_svd.
  rewrite Hs. intros H. injection H as <- <- <-.
  repeat split; try apply eye_well_formed.
  rewrite length_map, length_seq. reflexivity.
Qed.

(** C1. The unsigned variant stores nothing: [MY_RDCT_NS.fit] leaves the
    instance as it found it on every input.  On one training image of one
    class, an instance made for one class holds no basis and rank 0 after
    [MY_RDCT_NS.fit], and its [predict] then raises [IndexError]; on the
    same input [RSCDT_NS.fit] stores one basis and rank 1. *)
Theorem unsigned_fit_stores_no_basis :
  (forall (E : Externals) X Y ndm self, snd (MY_RDCT_NS.fit X Y ndm self) = self)
  /\ (let E := Demo.externals in
      let self := NS.init 1 [0%Q; 90%Q] false in
      let X := mk_ndarray [1; 1; 1] [1%Q] in
      let Y := [0%Z] in
      MY_RDCT_NS.fit X Y true self = (Ok tt, self)
      /\ length (NS.subspaces (snd (MY_RDCT_NS.fit X Y true self))) = 0
      /\ NS.len_subspace (snd (MY_RDCT_NS.fit X Y true self)) = 0
      /\ NS.num_classes self = 1
      /\ MY_RDCT_NS.predict (snd (MY_RDCT_NS.fit X Y true self)) X = Raise IndexError
      /\ fst (RSCDT_NS.fit X Y true self) = Ok tt
      /\ length (NS.subspaces (snd (RSCDT_NS.fit X Y true self))) = 1
      /\ NS.len_subspace (snd (RSCDT_NS.fit X Y true self)) = 1).
Proof.
  split.
  - intros E X Y ndm self. apply unsigned_fit_state.
  - vm_compute. repeat split.
Qed.

Section SignedFit.

Context {E : Externals}.

(** A call of [RSCDT_NS.fit] that returns has appended one basis per
    class label and has raised the rank to the largest effective rank of
    a class, if that is larger than the rank it found. *)
Lemma signed_fit_builds_bases (X : ndarray) (Y : list Z) (ndm : bool)
  (self self' : NS.classifier) :
  RSCDT_NS.fit X Y ndm self = (Ok tt, self') ->
  exists Xt outs,
    RSCDT_NS.rscdt_parallel self X = Ok Xt
    /\ sequence (map (Spec.class_outcome self Xt Y ndm) (seq 0 (NS.num_classes self)))
       = Ok outs
    /\ NS.subspaces self' = NS.subspaces self ++ map snd outs
    /\ length (NS.subspaces self')
       = length (NS.subspaces self) + NS.num_classes self
    /\ NS.len_subspace self'
       = fold_left Nat.max (map fst outs) (NS.len_subspace self).
Proof.
  intros Hfit.
  apply fit_Ok_inv in Hfit as (Xt & outs & HX & Hseq & Hlen & ->).
  destruct (record_all_fields outs self) as (_ & _ & _ & Hsub & Hl).
  exists Xt, outs. repeat split; try assumption.
  rewrite Hsub, length_app, length_map, Hlen. reflexivity.
Qed.


End SignedFit.





(** ** Fitting twice *)

Section Refit.

Context {E : Externals}.

Lemma class_distance_agree (self1 self2 : NS.classifier) (X : ndarray) (k : nat) :
  nth_error (NS.subspaces self1) k = nth_error (NS.subspaces self2) k ->
  NS.len_subspace self1 = NS.len_subspace self2 ->
  NS.class_distance self1 X k = NS.class_distance self2 X k.
Proof.
  intros Hn Hl. unfold NS.class_distance, getitem. rewrite Hn, Hl. reflexivity.
Qed.

Lemma predict_agree (tp : NS.classifier -> ndarray -> result ndarray)
  (self1 self2 : NS.classifier) (Xtest : ndarray) :
  tp self1 Xtest = tp self2 Xtest ->
  NS.num_classes self1 = NS.num_classes self2 ->
  NS.len_subspace self1 = NS.len_subspace self2 ->
  (forall k, k < NS.num_classes self1 ->
             nth_error (NS.subspaces self1) k = nth_error (NS.subspaces self2) k) ->
  NS.predict tp self1 Xtest = NS.predict tp self2 Xtest.
Proof.
  intros Ht Hn Hl Hs. unfold NS.predict. rewrite Ht, <- Hn.
  destruct (tp self2 Xtest) as [Xt|]; [|reflexivity]. cbn [rbind].
  destruct (reshape_rows Xt) as [X|]; [|reflexivity]. cbn [rbind].
  rewrite (sequence_ext_in (NS.class_distance self1 X) (NS.class_distance self2 X)).
  - reflexivity.
  - intros k Hk. apply in_seq in Hk.
    apply class_distance_agree; [apply Hs; lia|exact Hl].
Qed.

(** C10. [fit] of the signed variant only appends and only raises the
    rank.  After two calls that return on an instance fresh from the
    constructor, the instance holds twice [num_classes] bases; the first
    [num_classes] of them are those of the first call, and they are the
    ones that [predict] reads, cut at the rank left by the second call. *)
Theorem second_fit_keeps_first_bases (nc : nat) (th : list Q) (rm : bool)
  (X1 X2 : ndarray) (Y1 Y2 : list Z) (ndm1 ndm2 : bool)
  (self1 self2 : NS.classifier) :
  RSCDT_NS.fit X1 Y1 ndm1 (NS.init nc th rm) = (Ok tt, self1) ->
  RSCDT_NS.fit X2 Y2 ndm2 self1 = (Ok tt, self2) ->
  length (NS.subspaces self1) = nc
  /\ length (NS.subspaces self2) = 2 * nc
  /\ firstn nc (NS.subspaces self2) = NS.subspaces self1
  /\ NS.len_subspace self1 <= NS.len_subspace self2
  /\ NS.num_classes self2 = nc
  /\ (forall Xtest,
        RSCDT_NS.predict self2 Xtest
        = RSCDT_NS.predict
            (Spec.with_len_subspace self1 (NS.len_subspace self2)) Xtest).
Proof.
  intros H1 H2.
  pose proof (fit_extends _ _ _ _ _ _ H1) as (Hn1 & _ & _ & _ & _).
  pose proof (fit_extends _ _ _ _ _ _ H2) as (Hn2 & _ & _ & (new & Hnew) & Hlen).
  destruct (signed_fit_builds_bases _ _ _ _ _ H1) as (Xt1 & outs1 & _ & _ & _ & Hc1 & _).
  destruct (signed_fit_builds_bases _ _ _ _ _ H2) as (Xt2 & outs2 & _ & _ & _ & Hc2 & _).
  cbn in Hn1, Hc1. rewrite Hn1 in Hn2, Hc2.
  repeat split; try lia; try assumption.
  - rewrite Hnew, <- Hc1, firstn_app, firstn_all, Nat.sub_diag, firstn_O.
    apply app_nil_r.
  - intros Xtest. unfold RSCDT_NS.predict. apply predict_agree.
    + reflexivity.
    + cbn. congruence.
    + reflexivity.
    + intros k Hk. cbn. rewrite Hnew. apply nth_error_app1. lia.
Qed.

End Refit.

(** ** Rows, columns and products *)

Lemma chunks_length (w n : nat) (d : list Q) : length (chunks w n d) = n.
Proof.
  revert d. induction n as [|n IH]; intros d; [reflexivity|].
  cbn [chunks length]. rewrite IH. reflexivity.
Qed.

Lemma chunks_firstn (w n : nat) (d : list Q) :
  chunks w n (firstn (n * w) d) = chunks w n d.
Proof.
  revert d. induction n as [|n IH]; intros d; [reflexivity|].
  cbn [chunks]. f_equal.
  - rewrite firstn_firstn. f_equal. lia.
  - rewrite skipn_firstn_comm.
    replace (S n * w - w) with (n * w) by lia. apply IH.
Qed.

Lemma firstn_chunks (w n j : nat) (d : list Q) :
  firstn j (chunks w n d) = chunks w (Nat.min j n) d.
Proof.
  revert j d. induction n as [|n IH]; intros j d.
  - rewrite Nat.min_0_r. apply firstn_nil.
  - destruct j as [|j]; [reflexivity|].
    cbn [chunks firstn Nat.min]. f_equal. apply IH.
Qed.

Lemma chunks_row_lengths (w n : nat) (d : list Q) :
  length d = n * w -> Forall (fun r => length r = w) (chunks w n d).
Proof.
  revert d. induction n as [|n IH]; intros d Hd; [constructor|].
  cbn [chunks]. constructor.
  - rewrite length_firstn. lia.
  - apply IH. rewrite length_skipn. lia.
Qed.

Lemma chunks_concat_uniform (w : nat) (l : list (list Q)) :
  Forall (fun r => length r = w) l ->
  chunks w (length l) (concat l) = l.
Proof.
  induction 1 as [|r l Hr Hl IH]; [reflexivity|].
  cbn [length concat chunks].
  rewrite firstn_app, firstn_all2 by lia.
  replace (w - length r) with 0 by lia. rewrite firstn_O, app_nil_r.
  rewrite skipn_app, skipn_all2 by lia.
  replace (w - length r) with 0 by lia. rewrite skipn_O. cbn [app].
  rewrite IH. reflexivity.
Qed.

Lemma concat_chunks (w n : nat) (d : list Q) :
  length d = n * w -> concat (chunks w n d) = d.
Proof.
  revert d. induction n as [|n IH]; intros d Hd.
  - destruct d; [reflexivity|discriminate].
  - cbn [chunks concat]. rewrite IH by (rewrite length_skipn; lia).
    apply firstn_skipn.
Qed.

Lemma map_nth_seq (l : list Q) :
  map (fun f => nth f l 0%Q) (seq 0 (length l)) = l.
Proof.
  induction l as [|x l IH]; [reflexivity|].
  cbn [length seq map nth]. f_equal.
  rewrite <- seq_shift, map_map. exact IH.
Qed.

Lemma map_nth_rows (l : list (list Q)) :
  map (fun j => nth j l []) (seq 0 (length l)) = l.
Proof.
  induction l as [|x l IH]; [reflexivity|].
  cbn [length seq map nth]. f_equal.
  rewrite <- seq_shift, map_map. exact IH.
Qed.

Lemma rows_well_formed (a : ndarray) (n f : nat) :
  shape a = [n; f] -> well_formed a ->
  length (rows a) = n
  /\ Forall (fun r => length r = f) (rows a)
  /\ concat (rows a) = data a.
Proof.
  intros Hs Hwf. unfold rows, well_formed in *. rewrite Hs in *.
  cbn [prod_shape fold_right] in Hwf.
  assert (Hd : length (data a) = n * f) by lia.
  repeat split.
  - apply chunks_length.
  - apply chunks_row_lengths. exact Hd.
  - apply concat_chunks. exact Hd.
Qed.

Lemma rows_mk (n f : nat) (d : list Q) : rows (mk_ndarray [n; f] d) = chunks f n d.
Proof. reflexivity. Qed.

Lemma columns_as_column (a : ndarray) (n f : nat) :
  shape a = [n; f] ->
  columns a = map (Spec.column (rows a)) (seq 0 f).
Proof. intros Hs. unfold columns. rewrite Hs. reflexivity. Qed.

Lemma column_lengths (B : list (list Q)) (f : nat) :
  Forall (fun c => length c = length B) (map (Spec.column B) (seq 0 f)).
Proof.
  apply Forall_forall. intros c Hc. apply in_map_iff in Hc as (j & <- & _).
  unfold Spec.column. apply length_map.
Qed.

Lemma nth_column (B : list (list Q)) (j x : nat) :
  nth j (Spec.column B x) 0%Q = nth x (nth j B []) 0%Q.
Proof.
  unfold Spec.column. revert j. induction B as [|r B IH]; intros [|j]; cbn;
    try reflexivity; try apply IH; destruct x; reflexivity.
Qed.

(** The columns of [b.T] are the rows of [b]. *)
Lemma columns_transpose (b : ndarray) (k f : nat) :
  shape b = [k; f] -> well_formed b ->
  shape (transpose b) = [f; k] /\ columns (transpose b) = rows b.
Proof.
  intros Hs Hwf.
  destruct (rows_well_formed b k f Hs Hwf) as (Hlen & Hrows & _).
  unfold transpose. rewrite Hs. split; [reflexivity|].
  rewrite (columns_as_column (mk_ndarray [f; k] _) f k) by reflexivity.
  rewrite rows_mk, (columns_as_column b k f Hs).
  pose proof (column_lengths (rows b) f) as Hcl. rewrite Hlen in Hcl.
  pose proof (chunks_concat_uniform k _ Hcl) as Hch.
  rewrite length_map, length_seq in Hch. rewrite Hch.
  rewrite <- (map_nth_rows (rows b)) at 2. rewrite Hlen.
  apply map_ext_in. intros j Hj. apply in_seq in Hj.
  unfold Spec.column at 1. rewrite map_map.
  assert (Hf : length (nth j (rows b) []) = f).
  { rewrite Forall_forall in Hrows. apply Hrows. apply nth_In. lia. }
  rewrite <- (map_nth_seq (nth j (rows b) [])), Hf.
  apply map_ext. intros x. apply nth_column.
Qed.

Lemma slice_rows_spec {E : Externals} (b : ndarray) (k f len : nat) :
  shape b = [k; f] -> well_formed b ->
  exists b',
    NS.slice_rows len b = Ok b'
    /\ shape b' = [Nat.min len k; f]
    /\ well_formed b'
    /\ rows b' = firstn len (rows b).
Proof.
  intros Hs Hwf. unfold NS.slice_rows, slice0. rewrite Hs.
  rewrite Nat.min_0_l, Nat.sub_0_r. cbn [Nat.mul skipn].
  eexists. split; [reflexivity|].
  unfold well_formed in *. rewrite Hs in Hwf.
  cbn [shape data prod_shape fold_right] in *.
  split; [reflexivity|]. split.
  - rewrite length_firstn, Hwf. nia.
  - rewrite rows_mk. unfold rows. rewrite Hs.
    rewrite firstn_chunks.
    replace (Nat.min len k * (f * 1)) with (Nat.min len k * f) by lia.
    apply chunks_firstn.
Qed.

Lemma vsub_app (x1 x2 y1 y2 : list Q) :
  length x1 = length y1 ->
  Spec.vsub (x1 ++ x2) (y1 ++ y2) = Spec.vsub x1 y1 ++ Spec.vsub x2 y2.
Proof.
  unfold Spec.vsub. revert y1.
  induction x1 as [|a x1 IH]; intros [|b y1] Hl; try discriminate.
  - reflexivity.
  - cbn [app combine map]. f_equal. apply IH. injection Hl as Hl. exact Hl.
Qed.

Lemma vsub_concat (g : list Q -> list Q) (xs : list (list Q)) :
  Forall (fun x => length (g x) = length x) xs ->
  Spec.vsub (concat (map g xs)) (concat xs)
  = concat (map (fun x => Spec.vsub (g x) x) xs).
Proof.
  induction 1 as [|x xs Hx Hxs IH]; [reflexivity|].
  cbn [map concat]. rewrite vsub_app by exact Hx. rewrite IH. reflexivity.
Qed.

Lemma vsub_length (x y : list Q) :
  length x = length y -> length (Spec.vsub x y) = length y.
Proof.
  intros H. unfold Spec.vsub. rewrite length_map, length_combine. lia.
Qed.

Lemma reconstruction_length (B : list (list Q)) (x : list Q) :
  length (Spec.reconstruction B x) = length x.
Proof. unfold Spec.reconstruction. rewrite length_map, length_seq. reflexivity. Qed.

Section Distances.

Context {E : Externals}.

Lemma class_rows_stored (self : NS.classifier) (k : nat) (b : ndarray) :
  nth_error (NS.subspaces self) k = Some b ->
  Spec.class_rows self k = firstn (NS.len_subspace self) (rows b).
Proof. intros H. unfold Spec.class_rows. rewrite H. reflexivity. Qed.

(** The entry of [D] for class [k]: one residual per sample. *)
Lemma class_distance_rows (self : NS.classifier) (X b : ndarray) (m F k K : nat) :
  shape X = [m; F] -> well_formed X ->
  nth_error (NS.subspaces self) k = Some b ->
  shape b = [K; F] -> well_formed b ->
  NS.class_distance self X k
  = Ok (mk_ndarray [m] (map (Spec.residual (Spec.class_rows self k)) (rows X))).
Proof.
  intros HsX HwfX Hnth Hsb Hwfb.
  destruct (rows_well_formed X m F HsX HwfX) as (HlenX & HrowsX & HdataX).
  rewrite (class_rows_stored self k b Hnth).
  unfold NS.class_distance, getitem. rewrite Hnth. cbn [rbind].
  destruct (slice_rows_spec b K F (NS.len_subspace self) Hsb Hwfb)
    as (b' & Hsl & Hs' & Hwf' & Hrows').
  rewrite Hsl. cbn [rbind]. rewrite <- Hrows'.
  set (K' := Nat.min (NS.len_subspace self) K) in *.
  destruct (rows_well_formed b' K' F Hs' Hwf') as (Hlenb & _ & _).
  destruct (columns_transpose b' K' F Hs' Hwf') as (HsT & HcT).
  unfold matmul at 1. rewrite HsX, HsT, Nat.eqb_refl, HcT. cbn [rbind].
  unfold matmul at 1. cbn [shape]. rewrite Hs', Nat.eqb_refl. cbn [rbind].
  rewrite rows_mk, (columns_as_column b' K' F Hs').
  assert (Hproj : chunks K' m
                    (concat (map (fun r => map (fun c => dot r c) (rows b')) (rows X)))
                  = map (fun r => map (fun c => dot r c) (rows b')) (rows X)).
  { rewrite <- HlenX at 1.
    rewrite <- (length_map (fun r => map (fun c => dot r c) (rows b')) (rows X)).
    apply chunks_concat_uniform. apply Forall_forall. intros p Hp.
    apply in_map_iff in Hp as (r & <- & _). rewrite length_map. exact Hlenb. }
  rewrite Hproj, map_map.
  assert (Hrec : map (fun x => map (fun c => dot (map (fun c0 => dot x c0) (rows b')) c)
                                 (map (Spec.column (rows b')) (seq 0 F))) (rows X)
                 = map (Spec.reconstruction (rows b')) (rows X)).
  { apply map_ext_in. intros x Hx. unfold Spec.reconstruction.
    rewrite Forall_forall in HrowsX. rewrite (HrowsX x Hx), map_map. reflexivity. }
  rewrite Hrec.
  unfold np_sub. cbn [shape data]. rewrite HsX, shape_eqb_refl. cbn [rbind].
  f_equal. unfold NS.norm_axis1.
  assert (Hdiff : rows (mk_ndarray [m; F]
                          (map (fun p => (fst p - snd p)%Q)
                             (combine (concat (map (Spec.reconstruction (rows b')) (rows X)))
                                      (data X))))
                  = map (fun x => Spec.vsub (Spec.reconstruction (rows b') x) x) (rows X)).
  { rewrite rows_mk, <- HdataX.
    change (map (fun p => (fst p - snd p)%Q) (combine ?a ?c)) with (Spec.vsub a c).
    rewrite vsub_concat.
    2:{ apply Forall_forall. intros x _. apply reconstruction_length. }
    rewrite <- HlenX at 1.
    rewrite <- (length_map (fun x => Spec.vsub (Spec.reconstruction (rows b') x) x) (rows X)).
    apply chunks_concat_uniform. apply Forall_forall. intros v Hv.
    apply in_map_iff in Hv as (x & <- & Hx).
    rewrite vsub_length by apply reconstruction_length.
    rewrite Forall_forall in HrowsX. apply HrowsX. exact Hx. }
  rewrite Hdiff, length_map, HlenX, map_map. reflexivity.
Qed.

End Distances.

(** ** The least index of a least element *)

Lemma skipn_cons_inv (L : list Q) (i : nat) (x : Q) (l : list Q) :
  skipn i L = x :: l ->
  i < length L /\ nth i L 0%Q = x /\ skipn (S i) L = l.
Proof.
  revert L. induction i as [|i IH]; intros L H.
  - destruct L as [|y L]; [discriminate|]. cbn in H. injection H as -> ->.
    cbn. repeat split. lia.
  - destruct L as [|y L]; [discriminate|]. cbn [skipn] in H.
    apply IH in H as (H1 & H2 & H3). cbn [length nth]. repeat split; try assumption. lia.
Qed.

Lemma argmin_from_spec (L : list Q) :
  forall (l : list Q) (i bi : nat),
    skipn i L = l -> bi < i -> i <= length L ->
    (forall k, k < i -> (nth bi L 0 <= nth k L 0)%Q) ->
    (forall k, k < bi -> (nth bi L 0 < nth k L 0)%Q) ->
    let p := argmin_from bi (nth bi L 0%Q) i l in
    p < length L
    /\ (forall k, k < length L -> (nth p L 0 <= nth k L 0)%Q)
    /\ (forall k, k < p -> (nth p L 0 < nth k L 0)%Q).
Proof.
  induction l as [|x l IH]; intros i bi Hskip Hbi Hi Hmin Hfirst.
  - cbn. assert (length L <= i).
    { apply (f_equal (@length Q)) in Hskip. rewrite length_skipn in Hskip.
      cbn in Hskip. lia. }
    repeat split; [lia| |exact Hfirst]. intros k Hk. apply Hmin. lia.
  - apply skipn_cons_inv in Hskip as (Hlt & Hx & Hskip).
    cbn [argmin_from]. destruct (Qle_bool (nth bi L 0%Q) x) eqn:Hle.
    + apply Qle_bool_iff in Hle.
      apply (IH (S i) bi Hskip); try lia; try assumption.
      intros k Hk. destruct (Nat.eq_dec k i) as [->|Hne].
      * rewrite Hx. exact Hle.
      * apply Hmin. lia.
    + assert (Hgt : (x < nth bi L 0)%Q).
      { apply Qnot_le_lt. intros H. apply Qle_bool_iff in H. congruence. }
      rewrite <- Hx. rewrite <- Hx in Hgt.
      apply (IH (S i) i Hskip); try lia.
      * intros k Hk. destruct (Nat.eq_dec k i) as [->|Hne]; [apply Qle_refl|].
        apply Qlt_le_weak. eapply Qlt_le_trans; [exact Hgt|]. apply Hmin. lia.
      * intros k Hk. eapply Qlt_le_trans; [exact Hgt|]. apply Hmin. exact Hk.
Qed.

Lemma argmin_spec (L : list Q) :
  L <> [] ->
  argmin L < length L
  /\ (forall k, k < length L -> (nth (argmin L) L 0 <= nth k L 0)%Q)
  /\ (forall k, k < argmin L -> (nth (argmin L) L 0 < nth k L 0)%Q).
Proof.
  destruct L as [|x l]; [congruence|]. intros _.
  change (argmin (x :: l)) with (argmin_from 0 (nth 0 (x :: l) 0%Q) 1 l).
  apply (argmin_from_spec (x :: l) l 1 0); try reflexivity; try (cbn; lia).
  intros k Hk. replace k with 0 by lia. apply Qle_refl.
Qed.

(** ** Prediction *)



Lemma np_stack_nonempty (l : list ndarray) : l <> [] -> np_stack l = np_array l.
Proof. destruct l; [congruence|reflexivity]. Qed.

Lemma predict_variants {E : Externals} :
  MY_RDCT_NS.predict = NS.predict MY_RDCT_NS.rcdt_parallel
  /\ RSCDT_NS.predict = NS.predict RSCDT_NS.rscdt_parallel.
Proof. split; reflexivity. Qed.

Section Predict.

Context {E : Externals}.


End Predict.

(** ** Concrete runs *)

(** On the matrix of the concrete run of C6 below the stand-in
    decomposition is a singular value decomposition: [u . diag(s) . vh]
    gives the matrix back. *)
Lemma demo_svd_exact_on_witness :
  let flat := mk_ndarray [2; 1] [1000001 # 1000000; 0 # 1000000000000]%Q in
  exists u s vh us out,
    Demo.diag_svd flat = Ok (u, s, vh)
    /\ Forall (fun x => 0 <= x)%Q s
    /\ matmul u (Demo.np_diag s) = Ok us
    /\ matmul us vh = Ok out
    /\ shape out = shape flat
    /\ Forall2 Qeq (data out) (data flat).
Proof.
  cbv zeta. do 5 eexists. split; [reflexivity|]. split.
  - repeat constructor. discriminate.
  - split; [reflexivity|]. split; [reflexivity|]. split; [reflexivity|].
    repeat constructor; reflexivity.
Qed.

Lemma single_transform_normalisation_witness :
  let E := Demo.externals in
  let self := NS.init 1 [0%Q; 90%Q] false in
  let I := mk_ndarray [1; 2] [1; 3]%Q in
  MY_RDCT_NS.fun_rcdt_single self I
  = RadonCDT_forward
      (mk_forward_call (Some [0%Q; 90%Q]) x0_range
         (div_scalar (np_ones [1; 2]) (np_sum (data (np_ones [1; 2]))))
         x_range (div_scalar I (np_sum (data I))) false)
  /\ (np_sum (data (div_scalar I (np_sum (data I)))) == 1)%Q.
Proof.
  intros E self I.
  assert (Hpos : 0 < prod_shape (shape I)) by (cbn; lia).
  assert (Hsum : ~ (np_sum (data I) == 0)%Q) by (vm_compute; discriminate).
  pose proof (single_transform_normalisation (E := Demo.externals) self I Hpos Hsum)
    as H.
  cbv zeta in H. destruct H as ((Hcall & _ & _ & _ & _ & Hu & _) & _).
  split; [exact Hcall|exact Hu].
Defined.

Lemma demo_forward_keeps_axes (call : forward_call) :
  length (shape (fc_image call)) = 2 -> shape (Demo.trim_forward call) <> [].
Proof.
  unfold Demo.trim_forward. intros H.
  destruct (fc_rm_edge call); destruct (shape (fc_image call)) eqn:Hs;
    try discriminate; cbn [shape]; try rewrite Hs; discriminate.
Defined.

Lemma batch_transform_in_order_witness :
  let E := Demo.externals in
  let self := NS.init 2 [0%Q; 90%Q] true in
  let X := mk_ndarray [3; 1; 2] [1; 2; 3; 4; 5; 6]%Q in
  MY_RDCT_NS.rcdt_parallel self X
  = Spec.transform_in_order (MY_RDCT_NS.fun_rcdt_single self) X
  /\ RSCDT_NS.rscdt_parallel self X
     = Spec.transform_in_order (RSCDT_NS.fun_rscdt_single self) X.
Proof.
  intros E self X.
  apply (batch_transform_in_order (E := Demo.externals) self 3 1 2).
  - lia.
  - cbn. lia.
  - exact demo_forward_keeps_axes.
Defined.

Lemma add_trans_samples_appends_two_witness :
  let E := Demo.externals in
  let self := NS.init 1 [0%Q; 90%Q] false in
  exists out,
    NS.add_trans_samples self (mk_ndarray [1; 2; 2] [1; 2; 3; 4]%Q) = Ok out
    /\ shape out = [3; 2; 2].
Proof.
  intros E self.
  destruct (add_trans_samples_appends_two (E := Demo.externals) self 1 2 2
              [1; 2; 3; 4]%Q eq_refl eq_refl) as (out & Hout & Hshape & _).
  exists out. split; [exact Hout|exact Hshape].
Defined.

Lemma max_basis_is_effective_rank_witness :
  exists r,
    RSCDT_NS.max_basis [3; 1]%Q = Ok r /\ Spec.effective_rank [3; 1]%Q = Some r.
Proof.
  assert (Hnn : Forall (fun x => 0 <= x)%Q [3; 1]%Q)
    by (repeat constructor; discriminate).
  assert (Hex : Exists (fun x => 0 < x)%Q [3; 1]%Q)
    by (constructor; reflexivity).
  destruct (max_basis_is_effective_rank [3; 1]%Q Hnn Hex)
    as (m & r & _ & _ & Hr & Hs & _).
  exists r. split; [exact Hr|exact Hs].
Defined.


Lemma second_fit_keeps_first_bases_witness :
  let E := Demo.externals in
  let X := mk_ndarray [1; 1; 1] [1%Q] in
  let self1 := snd (RSCDT_NS.fit X [0%Z] true (NS.init 1 [0%Q] false)) in
  let self2 := snd (RSCDT_NS.fit X [0%Z] true self1) in
  length (NS.subspaces self2) = 2 * 1
  /\ firstn 1 (NS.subspaces self2) = NS.subspaces self1.
Proof.
  intros E X self1 self2.
  destruct (second_fit_keeps_first_bases (E := Demo.externals) 1 [0%Q] false
              X X [0%Z] [0%Z] true true self1 self2)
    as (_ & H2 & H3 & _).
  - vm_compute. reflexivity.
  - vm_compute. reflexivity.
  - split; [exact H2|exact H3].
Defined.


(** * Further properties of the two classes *)

(** ** The effective rank, on any singular values *)

Lemma where_ge_from_bounds (c : Q) (s : list Q) :
  forall (i j : nat), In j (where_ge_from i s c) -> i <= j < i + length s.
Proof.
  induction s as [|x s IH]; intros i j Hj; [destruct Hj|].
  cbn [where_ge_from length] in *.
  destruct (Qle_bool c x).
  - destruct Hj as [<-|Hj]; [lia|]. apply IH in Hj. lia.
  - apply IH in Hj. lia.
Qed.

Lemma np_cumsum_length (s : list Q) : length (np_cumsum s) = length s.
Proof.
  destruct s as [|x s]; [reflexivity|]. cbn [np_cumsum length]. f_equal.
  generalize x. induction s as [|y s IH]; intros acc; [reflexivity|].
  cbn [cumsum_from length]. f_equal. apply IH.
Qed.

Lemma max_basis_range (s : list Q) (r : nat) :
  RSCDT_NS.max_basis s = Ok r -> 1 <= r <= length s.
Proof.
  unfold RSCDT_NS.max_basis.
  destruct (np_max (np_cumsum s)) as [m|]; [|discriminate]. cbn [rbind].
  unfold getitem, np_where_ge.
  destruct (where_ge_from 0 (map (fun c => (c / m)%Q) (np_cumsum s)) (99 # 100))
    as [|i l] eqn:Hw; [discriminate|].
  cbn [nth_error rbind]. intros H. injection H as <-.
  assert (Hin : In i (where_ge_from 0 (map (fun c => (c / m)%Q) (np_cumsum s)) (99 # 100)))
    by (rewrite Hw; left; reflexivity).
  apply where_ge_from_bounds in Hin.
  rewrite length_map, np_cumsum_length in Hin. lia.
Qed.

(** X1. Whatever the singular values, a rank that [max_basis] returns
    lies between 1 and their number. *)
Theorem max_basis_bounds (s : list Q) (r : nat) :
  RSCDT_NS.max_basis s = Ok r -> 1 <= r <= length s.
Proof. apply max_basis_range. Qed.

(** ** Errors of [add_trans_samples] *)

Section DeformationErrors.

Context {E : Externals}.

(** X2. [add_trans_samples] raises [IndexError] on an array with fewer
    than two axes, and [ValueError] on an array of shape [(n, P, A)]
    when the instance has another number of angles than [A]. *)
Theorem add_trans_samples_errors (self : NS.classifier) :
  (forall d, NS.add_trans_samples self (mk_ndarray [] d) = Raise IndexError)
  /\ (forall n d, NS.add_trans_samples self (mk_ndarray [n] d) = Raise IndexError)
  /\ (forall n P A d,
         length (NS.thetas self) <> A ->
         NS.add_trans_samples self (mk_ndarray [n; P; A] d) = Raise ValueError).
Proof.
  split; [reflexivity|]. split; [reflexivity|].
  intros n P A d HA. unfold NS.add_trans_samples. cbn [shape1 shape rbind].
  set (angles := map (fun t => (t * np_pi / 180)%Q) (NS.thetas self)).
  assert (Hl : length angles = length (NS.thetas self)) by apply length_map.
  rewrite <- (length_map np_cos angles) at 1.
  rewrite np_repeat0_row. cbn [rbind].
  rewrite <- (length_map np_sin angles).
  rewrite np_repeat0_row. cbn [rbind].
  unfold np_concatenate, newaxis. cbn [shape data map forallb].
  rewrite !length_map, shape_eqb_refl, Hl. cbn [andb].
  destruct (shape_eqb [P; length (NS.thetas self)] [P; A]) eqn:Heq; [|reflexivity].
  apply shape_eqb_eq in Heq. injection Heq as Heq. contradiction.
Qed.

End DeformationErrors.

(** ** What [predict] returns and when it raises *)

Lemma sequence_Forall2 {A B : Type} (f : A -> result B) (l : list A) :
  forall xs, sequence (map f l) = Ok xs -> Forall2 (fun a x => f a = Ok x) l xs.
Proof.
  induction l as [|a l IH]; intros xs H.
  - injection H as <-. constructor.
  - cbn [map sequence] in H.
    destruct (f a) as [x|] eqn:Ha; [|discriminate].
    destruct (sequence (map f l)) as [xs'|]; [|discriminate].
    cbn [rbind] in H. injection H as <-. constructor; [exact Ha|].
    apply IH. reflexivity.
Qed.

Lemma matmul_shape (a b c : ndarray) :
  matmul a b = Ok c ->
  exists m k n, shape a = [m; k] /\ shape b = [k; n] /\ shape c = [m; n].
Proof.
  unfold matmul.
  destruct (shape a) as [|m [|k [|? ?]]]; try discriminate.
  destruct (shape b) as [|k' [|n [|? ?]]]; try discriminate.
  destruct (Nat.eqb k k') eqn:Hk; [|discriminate].
  apply Nat.eqb_eq in Hk. subst k'.
  intros H. injection H as <-. exists m, k, n. repeat split.
Qed.

Section PredictResults.

Context {E : Externals}.

Lemma class_distance_shape (self : NS.classifier) (X d : ndarray) (k m f : nat) :
  shape X = [m; f] ->
  NS.class_distance self X k = Ok d ->
  shape d = [m].
Proof.
  intros HsX. unfold NS.class_distance.
  destruct (getitem (NS.subspaces self) k) as [b|]; [|discriminate]. cbn [rbind].
  destruct (NS.slice_rows (NS.len_subspace self) b) as [b'|]; [|discriminate].
  cbn [rbind].
  destruct (matmul X (transpose b')) as [proj|] eqn:Hp; [|discriminate]. cbn [rbind].
  destruct (matmul proj b') as [projR|] eqn:HpR; [|discriminate]. cbn [rbind].
  apply matmul_shape in Hp as (m1 & k1 & n1 & Ha & _ & Hproj).
  apply matmul_shape in HpR as (m2 & k2 & n2 & Ha2 & _ & HprojR).
  rewrite HsX in Ha. injection Ha as <- <-.
  rewrite Hproj in Ha2. injection Ha2 as <- <-.
  unfold np_sub. destruct (shape_eqb (shape projR) (shape X)); [|discriminate].
  cbn [rbind]. intros H. injection H as <-.
  unfold NS.norm_axis1, rows. cbn [shape data]. rewrite HprojR.
  rewrite chunks_length. reflexivity.
Qed.

(** X3. When [predict] returns, it returns one label per transformed
    test sample, and every label is a class index below [num_classes].
    [tp] is the batch transform of the class. *)
Theorem predict_labels_in_range
  (tp : NS.classifier -> ndarray -> result ndarray)
  (self : NS.classifier) (Xtest Xt : ndarray) (m : nat) (preds : list nat) :
  tp self Xtest = Ok Xt ->
  shape0 Xt = Ok m ->
  NS.predict tp self Xtest = Ok preds ->
  length preds = m /\ Forall (fun p => p < NS.num_classes self) preds.
Proof.
  intros Htp Hm. unfold NS.predict. rewrite Htp. cbn [rbind].
  unfold reshape_rows. rewrite Hm. cbn [rbind].
  destruct (Nat.eqb m 0); [discriminate|]. cbn [rbind].
  set (X := mk_ndarray [m; Nat.div (prod_shape (shape Xt)) m] (data Xt)).
  destruct (sequence (map (NS.class_distance self X) (seq 0 (NS.num_classes self))))
    as [D|] eqn:HD; [|discriminate]. cbn [rbind].
  pose proof (sequence_length _ _ HD) as HlenD.
  rewrite length_map, length_seq in HlenD.
  apply sequence_Forall2 in HD.
  assert (Hshapes : Forall (fun d => shape d = [m]) D).
  { clear HlenD. induction HD as [|k d ks ds Hk _ IH]; constructor; [|exact IH].
    exact (class_distance_shape self X d k m _ eq_refl Hk). }
  destruct D as [|d0 D]; [discriminate|].
  unfold np_stack. destruct (np_array (d0 :: D)) as [Dst|] eqn:Hst; [|discriminate].
  cbn [rbind]. intros H. injection H as <-.
  apply np_array_Ok_inv in Hst as [_ ->].
  assert (Hd0 : shape d0 = [m]) by (inversion Hshapes; assumption).
  unfold np_argmin0. rewrite Hd0. unfold stacked.
  rewrite (columns_as_column _ (length (d0 :: D)) m) by reflexivity.
  rewrite rows_mk. split.
  - rewrite !length_map, length_seq. reflexivity.
  - apply Forall_forall. intros p Hp.
    apply in_map_iff in Hp as (col & <- & Hcol).
    apply in_map_iff in Hcol as (j & <- & _).
    assert (Hlen : length (Spec.column
                             (chunks m (length (d0 :: D))
                                (concat (map data (d0 :: D)))) j)
                   = NS.num_classes self).
    { unfold Spec.column. rewrite length_map, chunks_length. exact HlenD. }
    destruct (argmin_spec (Spec.column
                             (chunks m (length (d0 :: D))
                                (concat (map data (d0 :: D)))) j)) as (Hlt & _).
    + intros Hnil. rewrite Hnil in Hlen. cbn in Hlen. cbn in HlenD. lia.
    + rewrite Hlen in Hlt. exact Hlt.
Qed.

Lemma predict_no_basis
  (tp : NS.classifier -> ndarray -> result ndarray)
  (self : NS.classifier) (Xtest Xt X : ndarray) :
  NS.subspaces self = [] ->
  tp self Xtest = Ok Xt ->
  reshape_rows Xt = Ok X ->
  NS.predict tp self Xtest
  = Raise (if Nat.eqb (NS.num_classes self) 0 then ValueError else IndexError).
Proof.
  intros Hsub Htp HX. unfold NS.predict. rewrite Htp. cbn [rbind].
  rewrite HX. cbn [rbind].
  destruct (NS.num_classes self) as [|nc]; [reflexivity|].
  cbn [seq map sequence Nat.eqb]. unfold NS.class_distance at 1.
  rewrite Hsub. reflexivity.
Qed.

(** X4. On an instance that holds no basis, [predict] raises once the
    batch is transformed and flattened: [IndexError] when the instance
    was made for one class or more, [ValueError] when it was made for
    none. *)
Theorem predict_without_bases_raises
  (tp : NS.classifier -> ndarray -> result ndarray)
  (self : NS.classifier) (Xtest Xt X : ndarray) :
  NS.subspaces self = [] ->
  tp self Xtest = Ok Xt ->
  reshape_rows Xt = Ok X ->
  NS.predict tp self Xtest
  = Raise (if Nat.eqb (NS.num_classes self) 0 then ValueError else IndexError).
Proof. apply predict_no_basis. Qed.

(** X6. After [MY_RDCT_NS.fit] on an instance fresh from the
    constructor, [MY_RDCT_NS.predict] raises on every test batch: the
    unsigned class never returns a prediction. *)
Theorem unsigned_predict_after_fit_raises (nc : nat) (th : list Q) (rm : bool)
  (Xtrain : ndarray) (Ytrain : list Z) (ndm : bool) (Xtest : ndarray) :
  exists e,
    MY_RDCT_NS.predict
      (snd (MY_RDCT_NS.fit Xtrain Ytrain ndm (NS.init nc th rm))) Xtest
    = Raise e.
Proof.
  rewrite unsigned_fit_state. unfold MY_RDCT_NS.predict.
  destruct (MY_RDCT_NS.rcdt_parallel (NS.init nc th rm) Xtest) as [Xt|e] eqn:Ht.
  2:{ exists e. unfold NS.predict. rewrite Ht. reflexivity. }
  destruct (reshape_rows Xt) as [X|e] eqn:HX.
  2:{ exists e. unfold NS.predict. rewrite Ht. cbn [rbind]. rewrite HX. reflexivity. }
  eexists. apply (predict_no_basis _ _ Xtest Xt X); [reflexivity|exact Ht|exact HX].
Qed.

(** X5. On a batch of zero images, [predict] of either class raises
    [ValueError], whatever the instance holds: the unsigned one when it
    divides the batch in zero sections, the signed one when it flattens
    the empty array of transforms. *)
Theorem predict_empty_batch_raises (self : NS.classifier) (rest : list nat)
  (d : list Q) :
  MY_RDCT_NS.predict self (mk_ndarray (0 :: rest) d) = Raise ValueError
  /\ RSCDT_NS.predict self (mk_ndarray (0 :: rest) d) = Raise ValueError.
Proof.
  split.
  - unfold MY_RDCT_NS.predict, NS.predict, MY_RDCT_NS.rcdt_parallel, np_array_split.
    cbn [shape0 shape rbind]. rewrite Nat.min_0_r. reflexivity.
  - reflexivity.
Qed.

End PredictResults.

(** ** [RSCDT_NS.fit]: failures and what it has stored by then *)

Lemma count_mask (Y : list Z) (k : nat) :
  count_occ bool_dec (map (fun y => Z.eqb y (Z.of_nat k)) Y) true
  = count_occ Z.eq_dec Y (Z.of_nat k).
Proof.
  induction Y as [|y Y IH]; [reflexivity|].
  cbn [map count_occ]. destruct (Z.eqb_spec y (Z.of_nat k)) as [->|Hne].
  - destruct (bool_dec true true); [|congruence].
    destruct (Z.eq_dec (Z.of_nat k) (Z.of_nat k)); [|congruence]. rewrite IH. reflexivity.
  - destruct (bool_dec false true); [discriminate|].
    destruct (Z.eq_dec y (Z.of_nat k)); [congruence|]. exact IH.
Qed.

Lemma mask_index_shape (a b : ndarray) (mask : list bool) (n : nat) (rest : list nat) :
  shape a = n :: rest ->
  mask_index a mask = Ok b ->
  length mask = n /\ shape b = count_occ bool_dec mask true :: rest.
Proof.
  intros Hs. unfold mask_index. rewrite Hs.
  destruct (Nat.eqb (length mask) n) eqn:Hl; [|discriminate].
  apply Nat.eqb_eq in Hl. intros H. injection H as <-. split; [exact Hl|reflexivity].
Qed.

Lemma reshape_rows_shape (a b : ndarray) (n : nat) (rest : list nat) :
  shape a = n :: rest ->
  reshape_rows a = Ok b ->
  0 < n /\ shape b = [n; prod_shape rest] /\ data b = data a.
Proof.
  intros Hs. unfold reshape_rows, shape0. rewrite Hs. cbn [rbind].
  destruct (Nat.eqb n 0) eqn:Hn; [discriminate|]. apply Nat.eqb_neq in Hn.
  intros H. injection H as <-. cbn [shape data prod_shape fold_right].
  fold (prod_shape rest).
  rewrite (Nat.mul_comm n (prod_shape rest)), Nat.div_mul by exact Hn.
  repeat split. lia.
Qed.

Section FitFailures.

Context {E : Externals}.

Lemma fit_class_flat_raises (Xt : ndarray) (Y : list Z) (ndm : bool) (k : nat)
  (self : NS.classifier) (e : exn) :
  NS.class_flat self Xt Y ndm k = Raise e ->
  RSCDT_NS.fit_class Xt Y ndm k self = (Raise e, self).
Proof.
  intros H. unfold RSCDT_NS.fit_class, NS.mbind, NS.lift. rewrite H. reflexivity.
Qed.

Lemma fit_loop_raises (Xt : ndarray) (Y : list Z) (ndm : bool) (self0 : NS.classifier)
  (k : nat) (ks2 : list nat) (e : exn) (ks1 : list nat) :
  forall (self : NS.classifier) (outs : list (nat * ndarray)),
    NS.thetas self = NS.thetas self0 ->
    sequence (map (Spec.class_outcome self0 Xt Y ndm) ks1) = Ok outs ->
    NS.class_flat self0 Xt Y ndm k = Raise e ->
    NS.for_each (ks1 ++ k :: ks2) (RSCDT_NS.fit_class Xt Y ndm) self
    = (Raise e, Spec.record_all self outs).
Proof.
  induction ks1 as [|k1 ks1 IH]; intros self outs Hth Hseq Hk.
  - injection Hseq as <-. cbn [app NS.for_each]. unfold NS.mbind.
    rewrite (fit_class_flat_raises Xt Y ndm k self e); [reflexivity|].
    rewrite (class_flat_thetas self self0 Xt Y ndm k Hth). exact Hk.
  - cbn [map sequence] in Hseq.
    destruct (Spec.class_outcome self0 Xt Y ndm k1) as [[r basis]|] eqn:Hk1; [|discriminate].
    destruct (sequence (map (Spec.class_outcome self0 Xt Y ndm) ks1)) as [outs'|] eqn:Hks;
      [|discriminate].
    cbn [rbind] in Hseq. injection Hseq as <-.
    cbn [app NS.for_each]. unfold NS.mbind.
    rewrite (fit_class_stores Xt Y ndm k1 self r basis)
      by (rewrite (class_outcome_thetas self self0 Xt Y ndm k1 Hth); exact Hk1).
    exact (IH (Spec.record_basis self r basis) outs' Hth eq_refl Hk).
Qed.

Lemma seq_split_at (n k : nat) :
  k < n -> seq 0 n = seq 0 k ++ k :: seq (S k) (n - S k).
Proof.
  intros Hk. replace n with (k + S (n - S k)) at 1 by lia.
  rewrite seq_app. reflexivity.
Qed.

Lemma fit_raises_at (X : ndarray) (Y : list Z) (ndm : bool) (self : NS.classifier)
  (Xt : ndarray) (k : nat) (outs : list (nat * ndarray)) (e : exn) :
  RSCDT_NS.rscdt_parallel self X = Ok Xt ->
  k < NS.num_classes self ->
  sequence (map (Spec.class_outcome self Xt Y ndm) (seq 0 k)) = Ok outs ->
  NS.class_flat self Xt Y ndm k = Raise e ->
  RSCDT_NS.fit X Y ndm self = (Raise e, Spec.record_all self outs).
Proof.
  intros HX Hk Hseq Hflat. unfold RSCDT_NS.fit, NS.mbind at 1, NS.lift at 1.
  rewrite HX, (seq_split_at _ k Hk).
  apply (fit_loop_raises Xt Y ndm self); [reflexivity|exact Hseq|exact Hflat].
Qed.

(** X7. Without the deformation model, [RSCDT_NS.fit] raises
    [ValueError] at the first label that has no training sample; the
    bases of the labels before it are stored by then and stay stored. *)
Theorem fit_raises_at_empty_class (X : ndarray) (Y : list Z) (self : NS.classifier)
  (Xt : ndarray) (n : nat) (rest : list nat) (k : nat)
  (outs : list (nat * ndarray)) :
  RSCDT_NS.rscdt_parallel self X = Ok Xt ->
  shape Xt = n :: rest ->
  length Y = n ->
  k < NS.num_classes self ->
  count_occ Z.eq_dec Y (Z.of_nat k) = 0 ->
  sequence (map (Spec.class_outcome self Xt Y true) (seq 0 k)) = Ok outs ->
  RSCDT_NS.fit X Y true self = (Raise ValueError, Spec.record_all self outs)
  /\ NS.subspaces (Spec.record_all self outs) = NS.subspaces self ++ map snd outs
  /\ length outs = k.
Proof.
  intros HX Hs HY Hk Hcount Hseq. split; [|split].
  - apply (fit_raises_at X Y true self Xt k outs ValueError HX Hk Hseq).
    unfold NS.class_flat, mask_index. rewrite Hs, length_map, HY, Nat.eqb_refl.
    cbn [rbind]. rewrite count_mask, Hcount. reflexivity.
  - apply record_all_fields.
  - apply sequence_length in Hseq. rewrite Hseq, length_map, length_seq. reflexivity.
Qed.

(** X8. When the number of labels is not the number of transformed
    training images, [RSCDT_NS.fit] on an instance made for one class or
    more raises [IndexError] and leaves the instance as it was. *)
Theorem fit_label_count_mismatch (X : ndarray) (Y : list Z) (ndm : bool)
  (self : NS.classifier) (Xt : ndarray) (n : nat) :
  RSCDT_NS.rscdt_parallel self X = Ok Xt ->
  shape0 Xt = Ok n ->
  length Y <> n ->
  0 < NS.num_classes self ->
  RSCDT_NS.fit X Y ndm self = (Raise IndexError, self).
Proof.
  intros HX Hn HY Hnc.
  apply (fit_raises_at X Y ndm self Xt 0 [] IndexError HX Hnc eq_refl).
  unfold NS.class_flat, mask_index. unfold shape0 in Hn.
  destruct (shape Xt) as [|n' rest]; [reflexivity|]. injection Hn as ->.
  rewrite length_map. destruct (Nat.eqb (length Y) n) eqn:Hl; [|reflexivity].
  apply Nat.eqb_eq in Hl. contradiction.
Qed.

(** X9. On a training batch of zero images, [RSCDT_NS.fit] on an
    instance made for one class or more raises and leaves the instance
    as it was: [ValueError] when there is no label either and the
    deformation model is off, [IndexError] otherwise. *)
Theorem fit_empty_training_set (rest : list nat) (d : list Q) (Y : list Z)
  (ndm : bool) (self : NS.classifier) :
  0 < NS.num_classes self ->
  RSCDT_NS.fit (mk_ndarray (0 :: rest) d) Y ndm self
  = (Raise (if ndm && Nat.eqb (length Y) 0 then ValueError else IndexError), self).
Proof.
  intros Hnc.
  apply (fit_raises_at (mk_ndarray (0 :: rest) d) Y ndm self (mk_ndarray [0] []) 0 []
           _ eq_refl Hnc eq_refl).
  unfold NS.class_flat, mask_index. cbn [shape]. rewrite length_map.
  destruct Y as [|y Y]; cbn [length Nat.eqb andb rbind map count_occ].
  - destruct ndm; reflexivity.
  - rewrite andb_false_r. reflexivity.
Qed.

(** X10. Whether it returns or raises, [RSCDT_NS.fit] leaves an
    instance with the same [num_classes], [thetas] and [rm_edge], with
    the bases it held before in their places, and with a rank that is
    not smaller. *)
Theorem fit_keeps_stored_state (X : ndarray) (Y : list Z) (ndm : bool)
  (self : NS.classifier) :
  let self' := snd (RSCDT_NS.fit X Y ndm self) in
  NS.num_classes self' = NS.num_classes self
  /\ NS.thetas self' = NS.thetas self
  /\ NS.rm_edge self' = NS.rm_edge self
  /\ firstn (length (NS.subspaces self)) (NS.subspaces self') = NS.subspaces self
  /\ NS.len_subspace self <= NS.len_subspace self'.
Proof.
  cbv zeta. destruct (RSCDT_NS.fit X Y ndm self) as [res self'] eqn:Hfit.
  apply fit_extends in Hfit as (H1 & H2 & H3 & (new & H4) & H5). cbn [snd].
  repeat split; try assumption.
  rewrite H4, firstn_app, firstn_all, Nat.sub_diag, firstn_O. apply app_nil_r.
Qed.

End FitFailures.

(** ** The matrix of a class *)

Section ClassMatrix.

Context {E : Externals}.

Lemma add_trans_samples_Ok_shape (self : NS.classifier) (features out : ndarray)
  (n P A : nat) :
  shape features = [n; P; A] ->
  NS.add_trans_samples self features = Ok out ->
  shape out = [n + 2; P; A] /\ length (NS.thetas self) = A.
Proof.
  intros Hs. unfold NS.add_trans_samples, shape1. rewrite Hs. cbn [rbind].
  set (angles := map (fun t => (t * np_pi / 180)%Q) (NS.thetas self)).
  assert (Hl : length angles = length (NS.thetas self)) by apply length_map.
  rewrite <- (length_map np_cos angles) at 1.
  rewrite np_repeat0_row. cbn [rbind].
  rewrite <- (length_map np_sin angles).
  rewrite np_repeat0_row. cbn [rbind].
  unfold np_concatenate, newaxis. cbn [shape data map forallb hd fold_right].
  rewrite Hs, !length_map, shape_eqb_refl, Hl. cbn [andb hd].
  destruct (shape_eqb [P; length (NS.thetas self)] [P; A]) eqn:Heq; [|discriminate].
  apply shape_eqb_eq in Heq. injection Heq as Heq.
  intros H. injection H as <-. cbn [shape]. split; [|exact Heq].
  f_equal; lia.
Qed.

Lemma class_flat_rows (self : NS.classifier) (Xt flat : ndarray) (Y : list Z)
  (ndm : bool) (k n P A : nat) :
  shape Xt = [n; P; A] ->
  NS.class_flat self Xt Y ndm k = Ok flat ->
  let count := count_occ Z.eq_dec Y (Z.of_nat k) in
  length Y = n
  /\ shape flat = [if ndm then count else count + 2; P * A]
  /\ (ndm = true -> 0 < count).
Proof.
  intros Hs Hflat count. unfold NS.class_flat in Hflat.
  destruct (mask_index Xt (map (fun y => Z.eqb y (Z.of_nat k)) Y))
    as [class_data|] eqn:Hmask; [|discriminate].
  cbn [rbind] in Hflat.
  apply (mask_index_shape Xt class_data _ n [P; A] Hs) in Hmask as (Hlen & Hcd).
  rewrite length_map in Hlen. rewrite count_mask in Hcd. fold count in Hcd.
  assert (Hprod : prod_shape [P; A] = P * A) by (cbn; lia).
  destruct ndm.
  - apply (reshape_rows_shape _ _ count [P; A] Hcd) in Hflat as (Hpos & Hsf & _).
    rewrite Hprod in Hsf. split; [exact Hlen|]. split; [exact Hsf|].
    intros _. exact Hpos.
  - destruct (NS.add_trans_samples self class_data) as [cdt|] eqn:Hadd; [|discriminate].
    cbn [rbind] in Hflat.
    apply (add_trans_samples_Ok_shape self class_data cdt count P A Hcd) in Hadd as (Hc & _).
    apply (reshape_rows_shape _ _ (count + 2) [P; A] Hc) in Hflat as (_ & Hsf & _).
    rewrite Hprod in Hsf. split; [exact Hlen|]. split; [exact Hsf|].
    discriminate.
Qed.

(** X11. The matrix that [fit] decomposes for a class has one row per
    training sample of that label, and two more with the deformation
    model; its columns are the [P * A] coefficients of a transformed
    sample.  Without the deformation model the class has a sample. *)
Theorem class_flat_shape (self : NS.classifier) (Xt flat : ndarray) (Y : list Z)
  (ndm : bool) (k n P A : nat) :
  shape Xt = [n; P; A] ->
  NS.class_flat self Xt Y ndm k = Ok flat ->
  let count := count_occ Z.eq_dec Y (Z.of_nat k) in
  length Y = n
  /\ shape flat = [if ndm then count else count + 2; P * A]
  /\ (ndm = true -> 0 < count).
Proof. apply class_flat_rows. Qed.

End ClassMatrix.

(** ** From [fit] to [predict] *)

Lemma fold_left_max_attained (l : list nat) (a : nat) :
  fold_left Nat.max l a = a \/ In (fold_left Nat.max l a) l.
Proof.
  revert a. induction l as [|x l IH]; intros a; [left; reflexivity|].
  cbn [fold_left]. destruct (IH (Nat.max a x)) as [H|H].
  - rewrite H. destruct (Nat.max_spec a x) as [[_ ->]|[_ ->]];
      [right; left; reflexivity|left; reflexivity].
  - right. right. exact H.
Qed.

Section FitThenPredict.

Context {E : Externals}.

Lemma class_outcome_inv (self : NS.classifier) (Xt : ndarray) (Y : list Z)
  (ndm : bool) (k r : nat) (basis : ndarray) :
  Spec.class_outcome self Xt Y ndm k = Ok (r, basis) ->
  exists flat u s vh n,
    NS.class_flat self Xt Y ndm k = Ok flat
    /\ LA_svd flat = Ok (u, s, vh)
    /\ RSCDT_NS.max_basis s = Ok r
    /\ shape0 flat = Ok n
    /\ slice0 0 n vh = Ok basis.
Proof.
  unfold Spec.class_outcome.
  destruct (NS.class_flat self Xt Y ndm k) as [flat|] eqn:Hf; [|discriminate].
  cbn [rbind].
  destruct (LA_svd flat) as [[[u s] vh]|] eqn:Hd; [|discriminate]. cbn [rbind fst snd].
  destruct (RSCDT_NS.max_basis s) as [r'|] eqn:Hr; [|discriminate]. cbn [rbind].
  destruct (shape0 flat) as [n|] eqn:Hn; [|discriminate]. cbn [rbind].
  destruct (slice0 0 n vh) as [b|] eqn:Hb; [|discriminate]. cbn [rbind].
  intros H. injection H as <- <-.
  exists flat, u, s, vh, n. repeat split; assumption.
Qed.

(** X12. After a call of [RSCDT_NS.fit] that returns on an instance
    fresh from the constructor, the effective rank of every class lies
    between 1 and [len_subspace], and [len_subspace] is the effective
    rank of one of the classes. *)
Theorem fit_rank_is_largest (nc : nat) (th : list Q) (rm : bool)
  (X : ndarray) (Y : list Z) (ndm : bool) (self' : NS.classifier) (Xt : ndarray) :
  RSCDT_NS.fit X Y ndm (NS.init nc th rm) = (Ok tt, self') ->
  RSCDT_NS.rscdt_parallel (NS.init nc th rm) X = Ok Xt ->
  0 < nc ->
  (forall k, k < nc ->
     exists r basis,
       Spec.class_outcome (NS.init nc th rm) Xt Y ndm k = Ok (r, basis)
       /\ 1 <= r <= NS.len_subspace self')
  /\ (exists k basis,
        k < nc
        /\ Spec.class_outcome (NS.init nc th rm) Xt Y ndm k
           = Ok (NS.len_subspace self', basis)).
Proof.
  intros Hfit HX Hnc. split.
  - intros k Hk.
    destruct (fit_class_basis X Y ndm _ self' Xt k Hfit HX Hk) as (r & basis & Hout & _ & Hle).
    exists r, basis. split; [exact Hout|].
    apply class_outcome_inv in Hout as (flat & u & s & vh & n & _ & _ & Hr & _).
    apply max_basis_range in Hr. lia.
  - apply fit_Ok_inv in Hfit as (Xt' & outs & HX' & Hseq & Hlen & ->).
    assert (Xt' = Xt) by congruence. subst Xt'.
    destruct (record_all_fields outs (NS.init nc th rm)) as (_ & _ & _ & _ & Hl).
    cbn [NS.init NS.len_subspace NS.num_classes] in Hl, Hlen, Hseq.
    pose proof (sequence_Forall2 _ _ _ Hseq) as HF.
    assert (Hranks : Forall (fun o => 1 <= fst o) outs).
    { clear -HF. induction HF as [|k o ks os Hk _ IH]; constructor; [|exact IH].
      destruct o as [r basis].
      apply class_outcome_inv in Hk as (flat & u & s & vh & n & _ & _ & Hr & _).
      apply max_basis_range in Hr. cbn. lia. }
    destruct (fold_left_max_attained (map fst outs) 0) as [H0|Hin].
    + exfalso. destruct outs as [|o outs]; [cbn in Hlen; lia|].
      inversion Hranks as [|? ? Ho _]; subst.
      assert (Hge : forall l a, a <= fold_left Nat.max l a).
      { clear. induction l as [|x l IH]; intros a; cbn; [lia|].
        specialize (IH (Nat.max a x)). lia. }
      cbn [map fold_left] in H0. pose proof (Hge (map fst outs) (Nat.max 0 (fst o))). lia.
    + rewrite <- Hl in Hin. apply in_map_iff in Hin as ([r basis] & Hr & Hin).
      cbn [fst] in Hr. subst r.
      apply In_nth_error in Hin as (k & Hk).
      assert (Hklt : k < nc).
      { rewrite <- Hlen. apply nth_error_Some. rewrite Hk. discriminate. }
      exists k, basis. split; [exact Hklt|].
      destruct (sequence_nth_error _ _ outs k k Hseq (nth_error_seq0 nc k Hklt))
        as (o & Ho & Hnth).
      rewrite Hk in Hnth. injection Hnth as <-. exact Ho.
Qed.

Lemma predict_fitted_returns
  (tp : NS.classifier -> ndarray -> result ndarray)
  (self : NS.classifier) (Xtest Xt : ndarray) (m : nat) (rest : list nat) :
  tp self Xtest = Ok Xt ->
  shape Xt = m :: rest ->
  well_formed Xt ->
  0 < m ->
  0 < NS.num_classes self ->
  (forall k, k < NS.num_classes self ->
     exists b K, nth_error (NS.subspaces self) k = Some b
                 /\ shape b = [K; prod_shape rest] /\ well_formed b) ->
  exists preds, NS.predict tp self Xtest = Ok preds.
Proof.
  intros Htp Hs Hwf Hm Hnc Hbases.
  set (F := prod_shape rest) in *. set (nc := NS.num_classes self) in *.
  set (X := mk_ndarray [m; F] (data Xt)).
  assert (HX : reshape_rows Xt = Ok X).
  { unfold reshape_rows, shape0. rewrite Hs. cbn [rbind].
    destruct (Nat.eqb m 0) eqn:H0; [apply Nat.eqb_eq in H0; lia|].
    unfold X. cbn [prod_shape fold_right]. fold (prod_shape rest). fold F.
    rewrite (Nat.mul_comm m F), Nat.div_mul by lia. reflexivity. }
  assert (HwfX : well_formed X).
  { unfold well_formed in *. rewrite Hs in Hwf. cbn [prod_shape fold_right] in Hwf.
    fold (prod_shape rest) in Hwf. fold F in Hwf.
    unfold X. cbn [shape data prod_shape fold_right]. lia. }
  set (dist := fun k => mk_ndarray [m]
                 (map (Spec.residual (Spec.class_rows self k)) (rows X))).
  assert (HD : sequence (map (NS.class_distance self X) (seq 0 nc))
               = Ok (map dist (seq 0 nc))).
  { rewrite (sequence_ext_in _ (fun k => Ok (dist k))); [apply sequence_map_Ok|].
    intros k Hk. apply in_seq in Hk.
    destruct (Hbases k ltac:(lia)) as (b & K & Hnth & Hsb & Hwfb).
    apply (class_distance_rows self X b m F k K); auto. }
  assert (Hne : map dist (seq 0 nc) <> []).
  { destruct nc; [lia|]. discriminate. }
  eexists. unfold NS.predict. rewrite Htp. cbn [rbind]. rewrite HX. cbn [rbind].
  fold nc. rewrite HD. cbn [rbind]. rewrite (np_stack_nonempty _ Hne).
  rewrite (np_array_uniform [m]); [reflexivity|exact Hne|].
  apply forallb_forall. intros a' Ha'. apply in_map_iff in Ha' as (k & <- & _).
  apply shape_eqb_refl.
Qed.

(** X13. With the shapes of the reduced decomposition, an instance on
    which [RSCDT_NS.fit] returned (from the constructor, for one class
    or more, on training transforms of shape [(n, P, A)]) predicts:
    [RSCDT_NS.predict] returns on every test batch whose transforms have
    shape [(m, P, A)] with [m] positive. *)
Theorem fit_then_predict_returns (nc : nat) (th : list Q) (rm : bool)
  (X : ndarray) (Y : list Z) (ndm : bool) (self' : NS.classifier)
  (Xt Xtest Xt2 : ndarray) (n m P A : nat) :
  Spec.reduced_svd_shapes E ->
  RSCDT_NS.fit X Y ndm (NS.init nc th rm) = (Ok tt, self') ->
  RSCDT_NS.rscdt_parallel (NS.init nc th rm) X = Ok Xt ->
  shape Xt = [n; P; A] ->
  0 < nc ->
  RSCDT_NS.rscdt_parallel self' Xtest = Ok Xt2 ->
  shape Xt2 = [m; P; A] ->
  well_formed Xt2 ->
  0 < m ->
  exists preds, RSCDT_NS.predict self' Xtest = Ok preds.
Proof.
  intros Hsvd Hfit HX Hs Hnc HX2 Hs2 Hwf2 Hm.
  pose proof (fit_extends _ _ _ _ _ _ Hfit) as (Hn' & _).
  cbn [NS.init NS.num_classes] in Hn'.
  apply (predict_fitted_returns RSCDT_NS.rscdt_parallel self' Xtest Xt2 m [P; A]
           HX2 Hs2 Hwf2 Hm); [rewrite Hn'; exact Hnc|].
  rewrite Hn'. intros k Hk.
  destruct (fit_class_basis X Y ndm _ self' Xt k Hfit HX Hk) as (r & basis & Hout & Hnth & _).
  cbn [NS.init NS.subspaces length Nat.add] in Hnth.
  apply class_outcome_inv in Hout as (flat & u & s & vh & n0 & Hflat & Hdec & _ & Hn0 & Hsl).
  destruct (class_flat_rows _ Xt flat Y ndm k n P A Hs Hflat) as (_ & Hsf & _).
  set (rows_k := if ndm then count_occ Z.eq_dec Y (Z.of_nat k)
                 else count_occ Z.eq_dec Y (Z.of_nat k) + 2) in Hsf.
  destruct (Hsvd flat rows_k (P * A) u s vh Hsf Hdec) as (_ & _ & _ & Hvh & Hwfvh).
  unfold shape0 in Hn0. rewrite Hsf in Hn0. injection Hn0 as <-.
  rewrite (slice0_whole vh (Nat.min rows_k (P * A)) (P * A) rows_k Hvh Hwfvh) in Hsl by lia.
  injection Hsl as <-.
  exists vh, (Nat.min rows_k (P * A)). split; [exact Hnth|]. split; [|exact Hwfvh].
  rewrite Hvh. f_equal. f_equal. cbn. lia.
Qed.

End FitThenPredict.

(** ** Sections, items and inputs that are not batches *)

Lemma split_from_shapes (X : ndarray) (n : nat) (rest : list nat) (sizes : list nat) :
  shape X = n :: rest ->
  forall st, st + list_sum sizes <= n ->
  exists splits,
    split_from X st sizes = Ok splits
    /\ map shape splits = map (fun sz => sz :: rest) sizes.
Proof.
  intros Hs. induction sizes as [|sz sizes IH]; intros st Hle.
  - exists []. split; reflexivity.
  - change (list_sum (sz :: sizes)) with (sz + list_sum sizes) in Hle.
    destruct (IH (st + sz)) as (splits & Hsp & Hsh); [lia|].
    eexists. cbn [split_from].
    rewrite (slice0_in_range X n rest st sz Hs) by lia.
    rewrite Hsp. cbn [rbind]. split; [reflexivity|].
    cbn [map shape]. rewrite Hsh. reflexivity.
Qed.

Lemma index3_low_rank (X : ndarray) (j : nat) :
  length (shape X) < 3 -> index3 X j = Raise IndexError.
Proof.
  unfold index3. destruct (shape X) as [|n [|r [|c rest]]]; cbn [length]; intros H;
    try reflexivity. lia.
Qed.

Lemma batch_body_low_rank (single : ndarray -> ndarray) (X : ndarray)
  (n : nat) (sh : list nat) :
  shape X = n :: sh -> length sh < 2 -> 0 < n ->
  batch_body single X = Raise IndexError.
Proof.
  intros Hs Hsh Hn. unfold batch_body, shape0. rewrite Hs. cbn [rbind].
  destruct n as [|n]; [lia|]. cbn [seq map sequence].
  rewrite index3_low_rank by (rewrite Hs; cbn [length]; lia). reflexivity.
Qed.

Lemma transform_in_order_count (single : ndarray -> ndarray) (X Xt : ndarray)
  (n : nat) (sh : list nat) :
  shape X = n :: sh ->
  Spec.transform_in_order single X = Ok Xt ->
  shape0 Xt = Ok n.
Proof.
  intros Hs. unfold Spec.transform_in_order. rewrite Hs. cbn [hd].
  destruct n as [|n].
  - cbn. intros H. injection H as <-. reflexivity.
  - cbn [seq map]. intros H. apply np_array_Ok_inv in H as [_ ->].
    unfold shape0, stacked. cbn [shape length]. rewrite length_map, length_seq.
    reflexivity.
Qed.

Section Sections.

Context {E : Externals}.

Lemma rcdt_parallel_stacks_in_order (self : NS.classifier) (n r c : nat) (d : list Q) :
  0 < n ->
  0 < cpu_count ->
  (forall call, length (shape (fc_image call)) = 2 ->
                shape (RadonCDT_forward call) <> []) ->
  MY_RDCT_NS.rcdt_parallel self (mk_ndarray [n; r; c] d)
  = Spec.transform_in_order (MY_RDCT_NS.fun_rcdt_single self) (mk_ndarray [n; r; c] d).
Proof.
  intros Hn Hcpu Hfwd. set (X := mk_ndarray [n; r; c] d).
  set (single := MY_RDCT_NS.fun_rcdt_single self).
  set (k := Nat.min cpu_count n).
  assert (Hk : 0 < k /\ k <= n) by (unfold k; lia).
  destruct (array_split_sizes n k (proj1 Hk) (proj2 Hk)) as (Hsum & Hpos & Hnil).
  set (sizes := repeat (S (n / k)) (n mod k) ++ repeat (n / k) (k - n mod k)) in *.
  destruct (split_from_sections single X n r c [] sizes 0 eq_refl)
    as (splits & Hsp & Hmap); [lia|].
  unfold MY_RDCT_NS.rcdt_parallel, np_array_split. cbn [X shape0 shape rbind].
  fold k. destruct (Nat.eqb k 0) eqn:Hk0; [apply Nat.eqb_eq in Hk0; lia|].
  fold sizes. fold X. rewrite Hsp. cbn [rbind].
  unfold MY_RDCT_NS.mp_Pool. destruct (Nat.ltb k 1) eqn:Hk1;
    [apply Nat.ltb_lt in Hk1; lia|]. cbn [rbind].
  unfold MY_RDCT_NS.pool_map.
  change (MY_RDCT_NS.fun_rcdt_batch self) with (batch_body single).
  rewrite Hmap, vstack_of_sections.
  - rewrite sections_concat, Hsum. reflexivity.
  - destruct sizes; [congruence|discriminate].
  - apply sections_nonempty. exact Hpos.
  - rewrite sections_concat. apply Forall_forall. intros a Ha.
    apply in_map_iff in Ha as (j & <- & _).
    apply Hfwd. reflexivity.
Qed.

(** X14. [rcdt_parallel] divides a batch of [n] images, [n] positive,
    in [min(cpu_count, n)] sections: none is empty, their sizes add up
    to [n], and each holds [n / k] or [n / k + 1] images. *)
Theorem rcdt_parallel_sections_balanced (X : ndarray) (n : nat) (rest : list nat) :
  shape X = n :: rest ->
  0 < n ->
  0 < cpu_count ->
  let k := Nat.min cpu_count n in
  exists splits,
    np_array_split X k = Ok splits
    /\ MY_RDCT_NS.mp_Pool k = Ok tt
    /\ length splits = k
    /\ k <= n
    /\ list_sum (map (fun a => hd 0 (shape a)) splits) = n
    /\ Forall (fun a => tl (shape a) = rest
                        /\ 0 < hd 0 (shape a)
                        /\ n / k <= hd 0 (shape a) <= n / k + 1) splits.
Proof.
  intros Hs Hn Hcpu k.
  assert (Hk : 0 < k /\ k <= n) by (unfold k; lia).
  destruct (array_split_sizes n k (proj1 Hk) (proj2 Hk)) as (Hsum & Hpos & _).
  set (sizes := repeat (S (n / k)) (n mod k) ++ repeat (n / k) (k - n mod k)) in *.
  destruct (split_from_shapes X n rest sizes Hs 0) as (splits & Hsp & Hsh); [lia|].
  assert (Hbounds : Forall (fun sz => n / k <= sz <= n / k + 1) sizes).
  { unfold sizes. apply Forall_app. split; apply Forall_forall; intros x Hx;
      apply repeat_spec in Hx; lia. }
  assert (Hlen : length splits = length sizes).
  { apply (f_equal (@length _)) in Hsh. rewrite !length_map in Hsh. exact Hsh. }
  exists splits. split; [|split; [|split; [|split; [|split]]]].
  - unfold np_array_split, shape0. rewrite Hs. cbn [rbind].
    destruct (Nat.eqb k 0) eqn:Hk0; [apply Nat.eqb_eq in Hk0; lia|]. exact Hsp.
  - unfold MY_RDCT_NS.mp_Pool. destruct (Nat.ltb k 1) eqn:Hk1;
      [apply Nat.ltb_lt in Hk1; lia|reflexivity].
  - rewrite Hlen. unfold sizes. rewrite length_app, !repeat_length.
    pose proof (Nat.mod_upper_bound n k ltac:(lia)). lia.
  - lia.
  - rewrite <- Hsum. f_equal.
    rewrite <- (map_map shape (hd 0)), Hsh, map_map. cbn [hd]. apply map_id.
  - apply Forall_forall. intros a Ha.
    assert (Hin : In (shape a) (map (fun sz => sz :: rest) sizes))
      by (rewrite <- Hsh; apply in_map; exact Ha).
    apply in_map_iff in Hin as (sz & Hsz & Hinsz). rewrite <- Hsz. cbn [hd tl].
    rewrite Forall_forall in Hpos, Hbounds.
    specialize (Hpos sz Hinsz). specialize (Hbounds sz Hinsz). repeat split; lia.
Qed.

(** X15. Given an array with fewer than three axes (one image, say,
    instead of a batch) and a positive first dimension, the batch
    transform of either class raises [IndexError]. *)
Theorem batch_transform_rejects_non_batch (self : NS.classifier) (X : ndarray)
  (n : nat) (sh : list nat) :
  shape X = n :: sh ->
  length sh < 2 ->
  0 < n ->
  0 < cpu_count ->
  MY_RDCT_NS.rcdt_parallel self X = Raise IndexError
  /\ RSCDT_NS.rscdt_parallel self X = Raise IndexError.
Proof.
  intros Hs Hsh Hn Hcpu. split.
  2:{ apply (batch_body_low_rank (RSCDT_NS.fun_rscdt_single self) X n sh Hs Hsh Hn). }
  set (k := Nat.min cpu_count n).
  assert (Hk : 0 < k /\ k <= n) by (unfold k; lia).
  destruct (array_split_sizes n k (proj1 Hk) (proj2 Hk)) as (Hsum & Hpos & Hnil).
  set (sizes := repeat (S (n / k)) (n mod k) ++ repeat (n / k) (k - n mod k)) in *.
  destruct (split_from_shapes X n sh sizes Hs 0) as (splits & Hsp & Hshapes); [lia|].
  unfold MY_RDCT_NS.rcdt_parallel, np_array_split, shape0. rewrite Hs. cbn [rbind].
  fold k. destruct (Nat.eqb k 0) eqn:Hk0; [apply Nat.eqb_eq in Hk0; lia|].
  fold sizes. rewrite Hsp. cbn [rbind].
  unfold MY_RDCT_NS.mp_Pool. destruct (Nat.ltb k 1) eqn:Hk1;
    [apply Nat.ltb_lt in Hk1; lia|]. cbn [rbind].
  destruct sizes as [|sz sizes']; [congruence|].
  destruct splits as [|c0 cs]; [discriminate|].
  cbn [map] in Hshapes. injection Hshapes as Hc0 _.
  inversion Hpos as [|? ? Hsz _]; subst.
  unfold MY_RDCT_NS.pool_map. cbn [map sequence].
  change (MY_RDCT_NS.fun_rcdt_batch self c0)
    with (batch_body (MY_RDCT_NS.fun_rcdt_single self) c0).
  rewrite (batch_body_low_rank _ c0 sz sh Hc0 Hsh Hsz). reflexivity.
Qed.

(** X16. When a batch transform returns on a batch of shape
    [(n, r, c)], it returns one coefficient array per image: the first
    dimension of the result is [n]. *)
Theorem batch_transform_item_count (self : NS.classifier) (n r c : nat) (d : list Q) :
  0 < cpu_count ->
  (forall call, length (shape (fc_image call)) = 2 ->
                shape (RadonCDT_forward call) <> []) ->
  let X := mk_ndarray [n; r; c] d in
  (forall Xt, MY_RDCT_NS.rcdt_parallel self X = Ok Xt -> shape0 Xt = Ok n)
  /\ (forall Xt, RSCDT_NS.rscdt_parallel self X = Ok Xt -> shape0 Xt = Ok n).
Proof.
  intros Hcpu Hfwd X. split; intros Xt H.
  - destruct n as [|n].
    + unfold MY_RDCT_NS.rcdt_parallel, np_array_split in H.
      cbn [X shape0 shape rbind] in H. rewrite Nat.min_0_r in H. discriminate.
    + unfold X in H.
      rewrite (rcdt_parallel_stacks_in_order self (S n) r c d) in H by (lia || exact Hfwd).
      apply (transform_in_order_count _ (mk_ndarray [S n; r; c] d) Xt (S n) [r; c]
               eq_refl H).
  - change (RSCDT_NS.rscdt_parallel self X)
      with (batch_body (RSCDT_NS.fun_rscdt_single self) X) in H.
    rewrite (batch_body_in_order _ X n r c [] eq_refl) in H.
    apply (transform_in_order_count _ X Xt n [r; c] eq_refl H).
Qed.

End Sections.

(** ** Bases that do not fit the test samples, ranks beyond a basis *)

Section Mismatch.

Context {E : Externals}.

(** X17. When the basis stored for label 0 has another number of
    columns than a flattened test sample has features (an instance
    fitted on images of another size, say), [predict] raises
    [ValueError]. *)
Theorem predict_feature_mismatch_raises
  (tp : NS.classifier -> ndarray -> result ndarray)
  (self : NS.classifier) (Xtest Xt b : ndarray) (m K F' : nat) (rest : list nat) :
  tp self Xtest = Ok Xt ->
  shape Xt = m :: rest ->
  0 < m ->
  0 < NS.num_classes self ->
  nth_error (NS.subspaces self) 0 = Some b ->
  shape b = [K; F'] ->
  F' <> prod_shape rest ->
  NS.predict tp self Xtest = Raise ValueError.
Proof.
  intros Htp Hs Hm Hnc Hnth Hsb HF.
  unfold NS.predict. rewrite Htp. cbn [rbind].
  unfold reshape_rows, shape0. rewrite Hs. cbn [rbind].
  destruct (Nat.eqb m 0) eqn:H0; [apply Nat.eqb_eq in H0; lia|]. cbn [rbind].
  destruct (NS.num_classes self) as [|nc]; [lia|].
  cbn [seq map sequence]. unfold NS.class_distance at 1, getitem.
  rewrite Hnth. cbn [rbind].
  unfold NS.slice_rows, slice0. rewrite Hsb. cbn [rbind].
  unfold transpose at 1. cbn [shape]. unfold matmul at 1. cbn [shape].
  cbn [prod_shape fold_right]. fold (prod_shape rest).
  rewrite (Nat.mul_comm m (prod_shape rest)), Nat.div_mul by lia.
  destruct (Nat.eqb (prod_shape rest) F') eqn:Heq; [|reflexivity].
  apply Nat.eqb_eq in Heq. congruence.
Qed.

(** X18. For a class whose stored basis has [K] rows, every rank
    [len_subspace] of [K] or more gives the residuals that rank [K]
    gives: [predict] then uses the whole basis and raises nothing for
    the rows that are not there. *)
Theorem rank_beyond_basis_rows (self : NS.classifier) (X b : ndarray) (k K F : nat) :
  nth_error (NS.subspaces self) k = Some b ->
  shape b = [K; F] ->
  well_formed b ->
  K <= NS.len_subspace self ->
  NS.class_distance self X k
  = NS.class_distance (Spec.with_len_subspace self K) X k.
Proof.
  intros Hnth Hsb Hwf HK. unfold NS.class_distance, getitem. cbn [Spec.with_len_subspace
    NS.subspaces NS.len_subspace]. rewrite Hnth. cbn [rbind].
  unfold NS.slice_rows. rewrite Hsb.
  rewrite (slice0_whole b K F (NS.len_subspace self) Hsb Hwf HK).
  rewrite (slice0_whole b K F K Hsb Hwf (Nat.le_refl K)). reflexivity.
Qed.

End Mismatch.

(** ** The image that the unsigned transform is given *)

Lemma np_sum_positive (l : list Q) :
  l <> [] -> Forall (fun x => 0 < x)%Q l -> (0 < np_sum l)%Q.
Proof.
  intros Hne H. apply np_sum_pos.
  - eapply Forall_impl; [|exact H]. intros x Hx. apply Qlt_le_weak. exact Hx.
  - destruct l as [|x l]; [congruence|]. inversion H; subst. left. assumption.
Qed.

Lemma np_sum_scale (c : Q) (l : list Q) :
  (np_sum (map (fun v => c * v) l) == c * np_sum l)%Q.
Proof.
  induction l as [|x l IH].
  - unfold np_sum; simpl. ring.
  - cbn [map]. rewrite !np_sum_cons, IH. ring.
Qed.

Section UnsignedImage.

Context {E : Externals}.

(** X19. For an image without negative entries and with an entry at
    least, offset by [eps] as the batch method does, the image that
    [fun_rcdt_single] hands to the forward transform has only positive
    entries and they add up to one. *)
Theorem offset_image_is_a_density (self : NS.classifier) (I : ndarray) :
  data I <> [] ->
  Forall (fun x => 0 <= x)%Q (data I) ->
  let call := MY_RDCT_NS.fun_rcdt_single_call self (add_scalar I eps) in
  shape (fc_image call) = shape I
  /\ Forall (fun x => 0 < x)%Q (data (fc_image call))
  /\ (np_sum (data (fc_image call)) == 1)%Q.
Proof.
  intros Hne Hnn call.
  assert (Hpos : Forall (fun x => 0 < x)%Q (data (add_scalar I eps))).
  { cbn [add_scalar data]. apply Forall_forall. intros y Hy.
    apply in_map_iff in Hy as (x & <- & Hx).
    rewrite Forall_forall in Hnn. specialize (Hnn x Hx).
    assert (0 < eps)%Q by reflexivity. lra. }
  assert (Hsum : (0 < np_sum (data (add_scalar I eps)))%Q).
  { apply np_sum_positive; [|exact Hpos].
    cbn [add_scalar data]. destruct (data I); [congruence|discriminate]. }
  split; [reflexivity|]. split.
  - unfold call. cbn [MY_RDCT_NS.fun_rcdt_single_call fc_image div_scalar data].
    apply Forall_forall. intros y Hy. apply in_map_iff in Hy as (x & <- & Hx).
    rewrite Forall_forall in Hpos. specialize (Hpos x Hx).
    apply Qlt_shift_div_l; [exact Hsum|]. lra.
  - etransitivity; [exact (np_sum_div (data (add_scalar I eps)) _)|].
    field. lra.
Qed.

(** X20. [fun_rcdt_single] hands the forward transform the same image,
    entry by entry, for an image and for that image with every entry
    multiplied by one non-zero factor. *)
Theorem unsigned_transform_ignores_scale (self : NS.classifier) (I : ndarray) (c : Q) :
  ~ (c == 0)%Q ->
  ~ (np_sum (data I) == 0)%Q ->
  let scaled := mk_ndarray (shape I) (map (fun v => c * v)%Q (data I)) in
  shape (fc_image (MY_RDCT_NS.fun_rcdt_single_call self scaled))
  = shape (fc_image (MY_RDCT_NS.fun_rcdt_single_call self I))
  /\ Forall2 Qeq
       (data (fc_image (MY_RDCT_NS.fun_rcdt_single_call self scaled)))
       (data (fc_image (MY_RDCT_NS.fun_rcdt_single_call self I)))
  /\ fc_template (MY_RDCT_NS.fun_rcdt_single_call self scaled)
     = fc_template (MY_RDCT_NS.fun_rcdt_single_call self I).
Proof.
  intros Hc Hsum scaled. split; [reflexivity|]. split; [|reflexivity].
  cbn [MY_RDCT_NS.fun_rcdt_single_call fc_image div_scalar data scaled].
  pose proof (np_sum_scale c (data I)) as Hs.
  revert Hs Hsum.
  generalize (np_sum (map (fun v => (c * v)%Q) (data I))) as t.
  generalize (np_sum (data I)) as total.
  intros total t Ht Hsum. rewrite map_map.
  induction (data I) as [|x l IH]; cbn [map]; constructor; [|exact IH].
  rewrite Ht. field. split; assumption.
Qed.

End UnsignedImage.

(** ** When [RSCDT_NS.fit] returns *)

Lemma max_basis_returns (s : list Q) :
  Forall (fun x => 0 <= x)%Q s ->
  Exists (fun x => 0 < x)%Q s ->
  exists r, RSCDT_NS.max_basis s = Ok r.
Proof.
  intros Hnn Hex.
  assert (Hne : s <> []) by (intros ->; inversion Hex).
  pose proof (np_sum_pos s Hnn Hex) as Hpos.
  destruct (np_max_cumsum s Hnn Hne) as (m & Hm & Hmeq).
  set (f := fun r => Qle_bool (99 # 100) (Spec.energy s r)).
  assert (Hrel : Forall2 (fun x r => Qle_bool (99 # 100) x = f r)
                   (map (fun c => (c / m)%Q) (np_cumsum s)) (seq 1 (length s))).
  { pose proof (np_cumsum_prefix_sums s) as H.
    revert H. generalize (np_cumsum s) as cum. generalize (seq 1 (length s)) as rs.
    induction rs as [|r rs IH]; intros cum H; inversion H as [|x y l l' Hxy Hl]; subst;
      constructor.
    - unfold f, Spec.energy. rewrite Hxy, Hmeq. reflexivity.
    - apply IH. exact Hl. }
  assert (Hfull : f (length s) = true).
  { unfold f, Spec.energy. rewrite firstn_all. apply Qle_bool_iff.
    setoid_replace (np_sum s / np_sum s)%Q with 1%Q by (field; lra). lra. }
  assert (Hlen : 1 <= length s) by (destruct s; [congruence|simpl; lia]).
  unfold RSCDT_NS.max_basis. rewrite Hm. cbn [rbind]. unfold np_where_ge.
  rewrite (where_ge_first (99 # 100) f (length s) 1 0 _ Hrel).
  destruct (find f (seq 1 (length s))) as [r|] eqn:Hfind.
  - eexists. reflexivity.
  - exfalso. pose proof (find_none f _ Hfind (length s)) as Hn.
    rewrite Hfull in Hn.
    assert (In (length s) (seq 1 (length s))) by (apply in_seq; lia).
    specialize (Hn H). discriminate.
Qed.

Lemma sequence_all_Ok {A B : Type} (f : A -> result B) (l : list A) :
  (forall a, In a l -> exists b, f a = Ok b) ->
  exists bs, sequence (map f l) = Ok bs.
Proof.
  induction l as [|a l IH]; intros H.
  - exists []. reflexivity.
  - destruct (H a (or_introl eq_refl)) as (b & Hb).
    destruct IH as (bs & Hbs); [intros a' Ha'; apply H; right; exact Ha'|].
    exists (b :: bs). cbn [map sequence]. rewrite Hb, Hbs. reflexivity.
Qed.

Section FitReturns.

Context {E : Externals}.

(** X21. Without the deformation model, [RSCDT_NS.fit] returns, with
    one more basis per label, when the training set transforms, there is
    one label per transformed image, every label below [num_classes] has
    a sample, and the decomposition of every class matrix gives
    non-negative singular values, one of them positive, and a [vh] with
    an axis. *)
Theorem fit_returns (X : ndarray) (Y : list Z) (self : NS.classifier)
  (Xt : ndarray) (n : nat) (rest : list nat) :
  RSCDT_NS.rscdt_parallel self X = Ok Xt ->
  shape Xt = n :: rest ->
  length Y = n ->
  (forall k, k < NS.num_classes self -> 0 < count_occ Z.eq_dec Y (Z.of_nat k)) ->
  (forall k flat, k < NS.num_classes self ->
     NS.class_flat self Xt Y true k = Ok flat ->
     exists u s vh,
       LA_svd flat = Ok (u, s, vh)
       /\ Forall (fun x => 0 <= x)%Q s /\ Exists (fun x => 0 < x)%Q s
       /\ shape vh <> []) ->
  exists self',
    RSCDT_NS.fit X Y true self = (Ok tt, self')
    /\ length (NS.subspaces self')
       = length (NS.subspaces self) + NS.num_classes self.
Proof.
  intros HX Hs HY Hcount Hsvd.
  destruct (sequence_all_Ok (Spec.class_outcome self Xt Y true)
              (seq 0 (NS.num_classes self))) as (outs & Hseq).
  { intros k Hk. apply in_seq in Hk. assert (Hlt : k < NS.num_classes self) by lia.
    assert (Hflat : exists flat, NS.class_flat self Xt Y true k = Ok flat
                                 /\ shape0 flat
                                    = Ok (count_occ Z.eq_dec Y (Z.of_nat k))).
    { unfold NS.class_flat, mask_index. rewrite Hs, length_map, HY, Nat.eqb_refl.
      cbn [rbind]. rewrite count_mask. unfold reshape_rows, shape0. cbn [shape rbind].
      specialize (Hcount k Hlt).
      destruct (Nat.eqb (count_occ Z.eq_dec Y (Z.of_nat k)) 0) eqn:H0;
        [apply Nat.eqb_eq in H0; lia|].
      eexists. split; reflexivity. }
    destruct Hflat as (flat & Hflat & Hn).
    destruct (Hsvd k flat Hlt Hflat) as (u & s & vh & Hdec & Hnn & Hex & Hvh).
    destruct (max_basis_returns s Hnn Hex) as (r & Hr).
    unfold Spec.class_outcome. rewrite Hflat. cbn [rbind]. rewrite Hdec.
    cbn [rbind fst snd]. rewrite Hr, Hn. cbn [rbind].
    unfold slice0. destruct (shape vh) as [|v0 vrest]; [congruence|].
    eexists. reflexivity. }
  exists (Spec.record_all self outs). split.
  - apply (fit_stores X Y true self Xt outs HX Hseq).
  - destruct (record_all_fields outs self) as (_ & _ & _ & Hsub & _).
    rewrite Hsub, length_app, length_map.
    apply sequence_length in Hseq. rewrite Hseq, length_map, length_seq. reflexivity.
Qed.

End FitReturns.

(** ** Concrete runs of the further properties *)

Lemma max_basis_bounds_witness : 1 <= 2 <= length [3; 1]%Q.
Proof. apply (max_basis_bounds [3; 1]%Q 2). vm_compute. reflexivity. Defined.

Lemma add_trans_samples_errors_witness :
  NS.add_trans_samples (E := Demo.externals) (NS.init 1 [0%Q; 90%Q] false)
    (mk_ndarray [1; 1; 3] [1; 2; 3]%Q)
  = Raise ValueError.
Proof.
  apply (proj2 (proj2 (add_trans_samples_errors (E := Demo.externals)
                         (NS.init 1 [0%Q; 90%Q] false)))).
  cbn. lia.
Defined.

Lemma predict_labels_in_range_witness :
  let E := Demo.externals in
  let self := NS.mk_classifier 2 [0%Q] false
                [mk_ndarray [1; 2] [1; 0]%Q; mk_ndarray [1; 2] [0; 1]%Q] 1 in
  let Xtest := mk_ndarray [2; 1; 2] [5; 0; 0; 7]%Q in
  length [0; 1] = 2 /\ Forall (fun p => p < NS.num_classes self) [0; 1].
Proof.
  intros E self Xtest.
  apply (predict_labels_in_range (E := Demo.externals) RSCDT_NS.rscdt_parallel self Xtest
           (mk_ndarray [2; 1; 2]
              [5000001 # 1000000; 1 # 1000000; 1 # 1000000; 7000001 # 1000000]%Q)
           2 [0; 1]).
  - vm_compute. reflexivity.
  - reflexivity.
  - vm_compute. reflexivity.
Defined.

Lemma predict_without_bases_raises_witness :
  let E := Demo.externals in
  RSCDT_NS.predict (NS.init 2 [0%Q] false) (mk_ndarray [1; 1; 2] [5; 0]%Q)
  = Raise IndexError.
Proof.
  intros E.
  apply (predict_without_bases_raises (E := Demo.externals) RSCDT_NS.rscdt_parallel
           (NS.init 2 [0%Q] false) (mk_ndarray [1; 1; 2] [5; 0]%Q)
           (mk_ndarray [1; 1; 2] [5000001 # 1000000; 1 # 1000000]%Q)
           (mk_ndarray [1; 2] [5000001 # 1000000; 1 # 1000000]%Q)).
  - reflexivity.
  - vm_compute. reflexivity.
  - vm_compute. reflexivity.
Defined.

Lemma fit_raises_at_empty_class_witness :
  let E := Demo.externals in
  let self := NS.init 2 [0%Q] false in
  let X := mk_ndarray [1; 1; 1] [1%Q] in
  fst (RSCDT_NS.fit X [0%Z] true self) = Raise ValueError
  /\ length (NS.subspaces (snd (RSCDT_NS.fit X [0%Z] true self))) = 1.
Proof.
  cbv zeta.
  destruct (fit_raises_at_empty_class (E := Demo.externals)
              (mk_ndarray [1; 1; 1] [1%Q]) [0%Z] (NS.init 2 [0%Q] false)
              (mk_ndarray [1; 1; 1] [1000001 # 1000000]%Q) 1 [1; 1] 1
              [(1, mk_ndarray [1; 1] [1%Q])]) as (Hfit & Hsub & Hlen).
  - vm_compute. reflexivity.
  - reflexivity.
  - reflexivity.
  - cbn. lia.
  - reflexivity.
  - vm_compute. reflexivity.
  - rewrite Hfit. split; [reflexivity|]. cbn [snd]. rewrite Hsub. reflexivity.
Defined.

Lemma fit_label_count_mismatch_witness :
  let E := Demo.externals in
  let self := NS.init 1 [0%Q] false in
  RSCDT_NS.fit (mk_ndarray [1; 1; 1] [1%Q]) [0%Z; 0%Z] true self
  = (Raise IndexError, self).
Proof.
  intros E self.
  apply (fit_label_count_mismatch (E := Demo.externals) _ _ _ self
           (mk_ndarray [1; 1; 1] [1000001 # 1000000]%Q) 1).
  - vm_compute. reflexivity.
  - reflexivity.
  - cbn. lia.
  - cbn. lia.
Defined.

Lemma fit_empty_training_set_witness :
  let E := Demo.externals in
  let self := NS.init 1 [0%Q] false in
  RSCDT_NS.fit (mk_ndarray [0; 2; 2] []) [] true self = (Raise ValueError, self).
Proof.
  intros E self.
  apply (fit_empty_training_set (E := Demo.externals) [2; 2] [] [] true self).
  cbn. lia.
Defined.

Lemma class_flat_shape_witness :
  let E := Demo.externals in
  let self := NS.init 2 [0%Q; 90%Q] false in
  let Xt := mk_ndarray [3; 1; 2] [1; 2; 3; 4; 5; 6]%Q in
  exists flat,
    NS.class_flat self Xt [1; 0; 1]%Z false 1 = Ok flat /\ shape flat = [4; 1 * 2].
Proof.
  intros E self Xt.
  destruct (NS.class_flat self Xt [1; 0; 1]%Z false 1) as [flat|] eqn:Hflat;
    [|vm_compute in Hflat; discriminate].
  exists flat. split; [reflexivity|].
  exact (proj1 (proj2 (class_flat_shape (E := Demo.externals) self Xt flat
                         [1; 0; 1]%Z false 1 3 1 2 eq_refl Hflat))).
Defined.

Lemma fit_rank_is_largest_witness :
  let E := Demo.externals in
  let X := mk_ndarray [1; 1; 1] [1%Q] in
  exists k basis,
    k < 1
    /\ Spec.class_outcome (NS.init 1 [0%Q] false)
         (mk_ndarray [1; 1; 1] [1000001 # 1000000]%Q) [0%Z] true k
       = Ok (NS.len_subspace (snd (RSCDT_NS.fit X [0%Z] true (NS.init 1 [0%Q] false))),
             basis).
Proof.
  intros E X.
  apply (fit_rank_is_largest (E := Demo.externals) 1 [0%Q] false X [0%Z] true
           (snd (RSCDT_NS.fit X [0%Z] true (NS.init 1 [0%Q] false)))
           (mk_ndarray [1; 1; 1] [1000001 # 1000000]%Q)).
  - vm_compute. reflexivity.
  - vm_compute. reflexivity.
  - lia.
Defined.

Lemma fit_then_predict_returns_witness :
  let E := Demo.externals in
  let X := mk_ndarray [1; 1; 1] [1%Q] in
  let self' := snd (RSCDT_NS.fit X [0%Z] true (NS.init 1 [0%Q] false)) in
  exists preds, RSCDT_NS.predict self' (mk_ndarray [2; 1; 1] [3; 4]%Q) = Ok preds.
Proof.
  intros E X self'.
  apply (fit_then_predict_returns (E := Demo.externals) 1 [0%Q] false X [0%Z] true self'
           (mk_ndarray [1; 1; 1] [1000001 # 1000000]%Q)
           (mk_ndarray [2; 1; 1] [3; 4]%Q)
           (mk_ndarray [2; 1; 1] [3000001 # 1000000; 4000001 # 1000000]%Q)
           1 2 1 1 demo_svd_shapes).
  - vm_compute. reflexivity.
  - vm_compute. reflexivity.
  - reflexivity.
  - lia.
  - vm_compute. reflexivity.
  - reflexivity.
  - reflexivity.
  - lia.
Defined.

Lemma rcdt_parallel_sections_balanced_witness :
  let E := Demo.externals in
  exists splits,
    np_array_split (mk_ndarray [6; 1; 1] [1; 2; 3; 4; 5; 6]%Q) 4 = Ok splits
    /\ length splits = 4.
Proof.
  intros E.
  destruct (rcdt_parallel_sections_balanced (E := Demo.externals)
              (mk_ndarray [6; 1; 1] [1; 2; 3; 4; 5; 6]%Q) 6 [1; 1] eq_refl)
    as (splits & Hsp & _ & Hlen & _).
  - lia.
  - cbn. lia.
  - exists splits. split; [exact Hsp|exact Hlen].
Defined.

Lemma batch_transform_rejects_non_batch_witness :
  let E := Demo.externals in
  let self := NS.init 1 [0%Q] false in
  let image := mk_ndarray [2; 2] [1; 2; 3; 4]%Q in
  MY_RDCT_NS.rcdt_parallel self image = Raise IndexError
  /\ RSCDT_NS.rscdt_parallel self image = Raise IndexError.
Proof.
  intros E self image.
  apply (batch_transform_rejects_non_batch (E := Demo.externals) self image 2 [2]).
  - reflexivity.
  - cbn. lia.
  - lia.
  - cbn. lia.
Defined.

Lemma batch_transform_item_count_witness :
  let E := Demo.externals in
  let self := NS.init 1 [0%Q] true in
  let X := mk_ndarray [3; 1; 2] [1; 2; 3; 4; 5; 6]%Q in
  exists Xt, MY_RDCT_NS.rcdt_parallel self X = Ok Xt /\ shape0 Xt = Ok 3.
Proof.
  intros E self X.
  destruct (MY_RDCT_NS.rcdt_parallel self X) as [Xt|] eqn:H;
    [|vm_compute in H; discriminate].
  exists Xt. split; [reflexivity|].
  apply (proj1 (batch_transform_item_count (E := Demo.externals) self 3 1 2
                  [1; 2; 3; 4; 5; 6]%Q ltac:(cbn; lia) demo_forward_keeps_axes)).
  exact H.
Defined.

Lemma predict_feature_mismatch_raises_witness :
  let E := Demo.externals in
  let self := NS.mk_classifier 1 [0%Q] false [mk_ndarray [1; 3] [1; 0; 0]%Q] 1 in
  RSCDT_NS.predict self (mk_ndarray [1; 1; 2] [5; 0]%Q) = Raise ValueError.
Proof.
  intros E self.
  apply (predict_feature_mismatch_raises (E := Demo.externals) RSCDT_NS.rscdt_parallel
           self (mk_ndarray [1; 1; 2] [5; 0]%Q)
           (mk_ndarray [1; 1; 2] [5000001 # 1000000; 1 # 1000000]%Q)
           (mk_ndarray [1; 3] [1; 0; 0]%Q) 1 1 3 [1; 2]).
  - vm_compute. reflexivity.
  - reflexivity.
  - lia.
  - cbn. lia.
  - reflexivity.
  - reflexivity.
  - cbn. lia.
Defined.

Lemma rank_beyond_basis_rows_witness :
  let E := Demo.externals in
  let b := mk_ndarray [1; 2] [1; 0]%Q in
  let self := NS.mk_classifier 1 [0%Q] false [b] 5 in
  let X := mk_ndarray [1; 2] [3; 4]%Q in
  NS.class_distance self X 0 = NS.class_distance (Spec.with_len_subspace self 1) X 0.
Proof.
  intros E b self X.
  apply (rank_beyond_basis_rows (E := Demo.externals) self X b 0 1 2).
  - reflexivity.
  - reflexivity.
  - reflexivity.
  - cbn. lia.
Defined.

Lemma offset_image_is_a_density_witness :
  let I := mk_ndarray [1; 2] [0; 3]%Q in
  (np_sum (data (fc_image (MY_RDCT_NS.fun_rcdt_single_call
                             (NS.init 1 [0%Q] false) (add_scalar I eps)))) == 1)%Q.
Proof.
  intros I.
  apply (offset_image_is_a_density (NS.init 1 [0%Q] false) I).
  - discriminate.
  - repeat constructor; discriminate.
Defined.

Lemma unsigned_transform_ignores_scale_witness :
  let self := NS.init 1 [0%Q] false in
  let I := mk_ndarray [1; 2] [1; 3]%Q in
  Forall2 Qeq
    (data (fc_image (MY_RDCT_NS.fun_rcdt_single_call self
                       (mk_ndarray [1; 2] (map (fun v => 2 * v)%Q [1; 3]%Q)))))
    (data (fc_image (MY_RDCT_NS.fun_rcdt_single_call self I))).
Proof.
  intros self I.
  apply (unsigned_transform_ignores_scale self I 2%Q).
  - discriminate.
  - vm_compute. discriminate.
Defined.

Lemma fit_returns_witness :
  let E := Demo.externals in
  let self := NS.init 1 [0%Q] false in
  exists self',
    RSCDT_NS.fit (mk_ndarray [1; 1; 1] [1%Q]) [0%Z] true self = (Ok tt, self')
    /\ length (NS.subspaces self') = 0 + 1.
Proof.
  intros E self.
  apply (fit_returns (E := Demo.externals) (mk_ndarray [1; 1; 1] [1%Q]) [0%Z] self
           (mk_ndarray [1; 1; 1] [1000001 # 1000000]%Q) 1 [1; 1]).
  - vm_compute. reflexivity.
  - reflexivity.
  - reflexivity.
  - intros k Hk. cbn in Hk. destruct k as [|k]; [cbn; lia|lia].
  - intros k flat Hk Hflat. cbn in Hk. destruct k as [|k]; [|lia].
    vm_compute in Hflat. injection Hflat as <-.
    do 3 eexists. split; [vm_compute; reflexivity|].
    split; [repeat constructor; discriminate|].
    split; [constructor; reflexivity|discriminate].
Defined.
